(** * SplitStream rate limiter (api/rateLimiter.js, dual-namespace version)

    A shallow embedding of the rate-limiting module and of the Redis test
    double it is meant to run against, followed by the properties of the
    specification that concern them.

    Conventions of the embedding.
    - JavaScript numbers that the module handles are millisecond timestamps
      and small counters; they are integral and far below 2^53, so they are
      modelled by [Z] and the arithmetic is exact.
    - Strings are sequences of 8-bit code units, which is what Node hands
      out for HTTP header values (latin1 decoding).
    - [Date.now()] is an input: every function that reads the clock takes
      the value it reads as an argument.
    - A function that may throw (or an async function that may reject)
      returns a [Completion]. *)

From Stdlib Require Import ZArith Lia Ascii String List.
From stdpp Require Import base option gmap strings list.

Local Open Scope Z_scope.

(** ** The JavaScript fragments the module relies on *)

Module JS.

(** Result of evaluating code that may throw an [Error] with a message. *)
Inductive Completion (A : Type) : Type :=
| Normal (a : A)
| Throw (message : string).
Arguments Normal {A} a.
Arguments Throw {A} message.

Definition isNormal {A} (c : Completion A) : bool :=
  match c with Normal _ => true | Throw _ => false end.

(** WhiteSpace and LineTerminator code units below 256: TAB, LF, VT, FF,
    CR, SP and NBSP. *)
Definition isWhiteSpace (c : ascii) : bool :=
  let n := N_of_ascii c in
  (N.eqb n 9 || N.eqb n 10 || N.eqb n 11 || N.eqb n 12 || N.eqb n 13
   || N.eqb n 32 || N.eqb n 160)%bool.

Definition isEmpty (s : string) : bool :=
  match s with EmptyString => true | String _ _ => false end.

Fixpoint trimStart (s : string) : string :=
  match s with
  | EmptyString => EmptyString
  | String c r => if isWhiteSpace c then trimStart r else s
  end.

Fixpoint trimEnd (s : string) : string :=
  match s with
  | EmptyString => EmptyString
  | String c r =>
      let r' := trimEnd r in
      if (isWhiteSpace c && isEmpty r')%bool then EmptyString
      else String c r'
  end.

(** [s.trim()] *)
Definition trim (s : string) : string := trimEnd (trimStart s).

(** [s.split(sep)] for a one-character separator; never the empty list. *)
Fixpoint split (sep : ascii) (s : string) : list string :=
  match s with
  | EmptyString => [EmptyString]
  | String c r =>
      if Ascii.eqb c sep then EmptyString :: split sep r
      else match split sep r with
           | x :: xs => String c x :: xs
           | [] => [String c EmptyString]
           end
  end.

(** [s.replace(/[:.]/g, '-')] *)
Fixpoint replaceColonDot (s : string) : string :=
  match s with
  | EmptyString => EmptyString
  | String c r =>
      String (if (Ascii.eqb c ":" || Ascii.eqb c ".")%bool then "-"%char else c)
             (replaceColonDot r)
  end.

Definition digitValue (c : ascii) : option Z :=
  let n := N_of_ascii c in
  if (N.leb 48 n && N.leb n 57)%bool then Some (Z.of_N n - 48) else None.

(** Value of the longest prefix of decimal digits, [None] when that prefix
    is empty; [acc] carries the digits read so far. *)
Fixpoint digits (acc : option Z) (s : string) : option Z :=
  match s with
  | EmptyString => acc
  | String c r =>
      match digitValue c with
      | Some d => digits (Some (10 * default 0 acc + d)) r
      | None => acc
      end
  end.

(** [parseInt(v, 10)]; [None] stands for NaN.  An [undefined] argument is
    converted to the string "undefined", which has no digit. *)
Definition parseInt (v : option string) : option Z :=
  match v with
  | None => None
  | Some s =>
      match trimStart s with
      | String "-" r => Z.opp <$> digits None r
      | String "+" r => digits None r
      | t => digits None t
      end
  end.

(** [n || d] for a number [n]: NaN and 0 are falsy. *)
Definition orNumber (n : option Z) (d : Z) : Z :=
  match n with
  | Some v => if v =? 0 then d else v
  | None => d
  end.

(** [a || b] for strings that may be undefined: undefined and the empty
    string are falsy. *)
Definition truthy (v : option string) : bool :=
  match v with
  | Some s => negb (isEmpty s)
  | None => false
  end.

(** [Math.ceil(x / d)] and [Math.floor(x / d)] for integral [x], [0 < d]. *)
Definition ceilDiv (x d : Z) : Z := - ((- x) / d).
Definition floorDiv (x d : Z) : Z := x / d.

(** [x % d]: the sign follows the dividend. *)
Definition remainder (x d : Z) : Z := Z.rem x d.

End JS.
Import JS.

(** ** Configuration *)

(** [process.env] *)
Abbreviation Env := (gmap string string).

Definition RATE_LIMIT_WINDOW : Z := 60 * 60 * 1000.

Definition PROCESSING_RATE_LIMIT_MAX_REQUESTS (env : Env) : Z :=
  orNumber (parseInt (env !! "RATE_LIMIT_PER_HOUR"%string)) 10.

Definition HEALTH_CHECK_RATE_LIMIT_MAX_REQUESTS (env : Env) : Z :=
  orNumber (parseInt (env !! "HEALTH_CHECK_RATE_LIMIT_PER_HOUR"%string)) 100.

(** The two values [limiterType] takes. *)
Inductive LimiterType : Type := processing | health.

Global Instance LimiterType_eq_dec : EqDecision LimiterType.
Proof. solve_decision. Defined.

Definition limiterTypeName (t : LimiterType) : string :=
  match t with
  | processing => "processing"
  | health => "health"
  end.

(** [limiterType === 'health' ? HEALTH_CHECK_... : PROCESSING_...] *)
Definition maxRequestsFor (env : Env) (limiterType : LimiterType) : Z :=
  match limiterType with
  | health => HEALTH_CHECK_RATE_LIMIT_MAX_REQUESTS env
  | processing => PROCESSING_RATE_LIMIT_MAX_REQUESTS env
  end.

(** [`ratelimit:${limiterType}:${id}`] *)
Definition limiterKeyOf (limiterType : LimiterType) (id : string) : string :=
  ("ratelimit:" ++ limiterTypeName limiterType ++ ":" ++ id)%string.

(** ** Requests and identity extraction *)

(** A value of [req.headers]: Node gives a string, or an array of strings
    for the headers it does not join. *)
Inductive HeaderValue : Type :=
| HString (s : string)
| HArray (l : list string).

Module Request.
Record t : Type := mk {
  headers : option (gmap string HeaderValue);
  ip : option string;
  (** [req.connection], and in it [remoteAddress] *)
  connection : option (option string);
}.
End Request.

(** [req.ip || req.connection?.remoteAddress || 'unknown'] *)
Definition peerAddress (req : Request.t) : string :=
  if truthy (Request.ip req) then default EmptyString (Request.ip req)
  else if truthy (mjoin (Request.connection req))
       then default EmptyString (mjoin (Request.connection req))
       else "unknown"%string.

Definition extractClientIP (req : Request.t) : Completion string :=
  match Request.headers req with
  | None => Throw "Cannot read properties of undefined (reading 'x-forwarded-for')"
  | Some hs =>
      match hs !! "x-forwarded-for"%string with
      | Some (HString s) =>
          if isEmpty s then Normal (peerAddress req)
          else
            match split "," s with
            | x :: _ => Normal (trim x)
            | [] => Throw "Cannot read properties of undefined (reading 'trim')"
            end
      | Some (HArray _) => Throw "xForwardedFor.split is not a function"
      | None => Normal (peerAddress req)
      end
  end.

Definition sanitizeIP (ip : string) : string := replaceColonDot ip.

(** ** The in-memory backend *)

Module Limiter.
Record t : Type := mk { count : Z; resetTime : Z }.
End Limiter.

Module Result.
Record t : Type := mk {
  allowed : bool;
  remaining : Z;
  resetTime : Z;
  retryAfter : option Z;
}.
End Result.

(** [now] is the value of [Date.now()] read on entry. *)
Definition checkInMemoryRateLimit (env : Env) (now : Z) (clientIP : string)
    (limiterType : LimiterType) (m : gmap string Limiter.t)
  : Result.t * gmap string Limiter.t :=
  let maxRequests := maxRequestsFor env limiterType in
  let limiterKey := limiterKeyOf limiterType clientIP in
  match m !! limiterKey with
  | None =>
      (Result.mk true (maxRequests - 1) (now + RATE_LIMIT_WINDOW) None,
       <[limiterKey := Limiter.mk 1 (now + RATE_LIMIT_WINDOW)]> m)
  | Some limiter =>
      if Limiter.resetTime limiter <? now then
        (Result.mk true (maxRequests - 1) (now + RATE_LIMIT_WINDOW) None,
         <[limiterKey := Limiter.mk 1 (now + RATE_LIMIT_WINDOW)]> m)
      else if maxRequests <=? Limiter.count limiter then
        (Result.mk false 0 (Limiter.resetTime limiter)
           (Some (ceilDiv (Limiter.resetTime limiter - now) 1000)),
         m)
      else
        (Result.mk true (maxRequests - (Limiter.count limiter + 1))
           (Limiter.resetTime limiter) None,
         <[limiterKey := Limiter.mk (Limiter.count limiter + 1)
                           (Limiter.resetTime limiter)]> m)
  end.

(** ** The Redis client *)

(** What the module uses of an Upstash client: the dynamic import of the
    package, [ping], [incr], [expire] and [get].  [R] is the state of the
    store behind the client; a call that reads the clock takes the time at
    which it is served; a rejected call is a [Throw]. *)
Record RedisClient (R : Type) : Type := {
  import_ : Completion unit;
  ping : R → Completion unit * R;
  incr : Z → string → R → Completion Z * R;
  expire : Z → string → Z → R → Completion bool * R;
  get : Z → string → R → Completion (option Z) * R;
}.
Arguments import_ {R} _.
Arguments ping {R} _ _.
Arguments incr {R} _ _ _ _.
Arguments expire {R} _ _ _ _ _.
Arguments get {R} _ _ _ _.

(** *** MockRedisClient (tests/helpers/mockRedis.ts) *)

Module RedisEntry.
Record t : Type := mk { value : Z; expiresAt : option Z }.
End RedisEntry.

Module MockRedisClient.

Abbreviation store := (gmap string RedisEntry.t).

(** [entry.expiresAt && entry.expiresAt < Date.now()] *)
Definition expired (now : Z) (entry : RedisEntry.t) : bool :=
  match RedisEntry.expiresAt entry with
  | Some e => (negb (e =? 0) && (e <? now))%bool
  | None => false
  end.

(** [entry?.expiresAt || null] *)
Definition expiresAtOrNull (entry : RedisEntry.t) : option Z :=
  match RedisEntry.expiresAt entry with
  | Some e => if e =? 0 then None else Some e
  | None => None
  end.

Definition incr (now : Z) (key : string) (s : store) : Completion Z * store :=
  match s !! key with
  | Some entry =>
      if expired now entry then
        (Normal 1, <[key := RedisEntry.mk 1 None]> (delete key s))
      else
        let newValue := RedisEntry.value entry + 1 in
        (Normal newValue,
         <[key := RedisEntry.mk newValue (expiresAtOrNull entry)]> s)
  | None => (Normal 1, <[key := RedisEntry.mk 1 None]> s)
  end.

Definition expire (now : Z) (key : string) (seconds : Z) (s : store)
  : Completion bool * store :=
  match s !! key with
  | None => (Normal false, s)
  | Some entry =>
      (Normal true,
       <[key := RedisEntry.mk (RedisEntry.value entry) (Some (now + seconds * 1000))]> s)
  end.

Definition get (now : Z) (key : string) (s : store)
  : Completion (option Z) * store :=
  match s !! key with
  | Some entry =>
      if expired now entry then (Normal None, delete key s)
      else (Normal (if RedisEntry.value entry =? 0 then None
                    else Some (RedisEntry.value entry)), s)
  | None => (Normal None, s)
  end.

(** The class has no [ping] method. *)
Definition ping (s : store) : Completion unit * store :=
  (Throw "redisClient.ping is not a function", s).

(** [set(key, value, {ex})]; [ex] is [None] when no option is given, and an
    [ex] of 0 is falsy. *)
Definition set (now : Z) (key : string) (value : Z) (ex : option Z) (s : store)
  : store :=
  let expiresAt :=
    match ex with
    | Some seconds => if seconds =? 0 then None else Some (now + seconds * 1000)
    | None => None
    end in
  <[key := RedisEntry.mk value expiresAt]> s.

(** [del(key)]: 1 when the key was there, 0 otherwise. *)
Definition del (key : string) (s : store) : Z * store :=
  (if bool_decide (is_Some (s !! key)) then 1 else 0, delete key s).

Definition flushAll (s : store) : store := ∅.

End MockRedisClient.

(** The test double behind the client interface; creating it needs no
    package. *)
Definition createMockRedis : RedisClient (gmap string RedisEntry.t) :=
  {| import_ := Normal ();
     ping := MockRedisClient.ping;
     incr := MockRedisClient.incr;
     expire := MockRedisClient.expire;
     get := MockRedisClient.get |}.

(** ** Module state *)

(** Argument of [new Redis({url, token})]. *)
Record RedisOptions : Type := { url : string; token : string }.

(** The module-level variables, together with the state [R] of the store
    that [redisClient] talks to. *)
Record World (R : Type) : Type := mkWorld {
  inMemoryRateLimitMap : gmap string Limiter.t;
  redisClient : option RedisOptions;
  useRedis : bool;
  rateLimiterInitialized : bool;
  redisStore : R;
}.
Arguments mkWorld {R} _ _ _ _ _.
Arguments inMemoryRateLimitMap {R} _.
Arguments redisClient {R} _.
Arguments useRedis {R} _.
Arguments rateLimiterInitialized {R} _.
Arguments redisStore {R} _.

(** The variables as the module initialises them. *)
Definition freshWorld {R} (r : R) : World R := mkWorld ∅ None false false r.

Definition setMap {R} (m : gmap string Limiter.t) (w : World R) : World R :=
  mkWorld m (redisClient w) (useRedis w) (rateLimiterInitialized w) (redisStore w).
Definition setClient {R} (c : option RedisOptions) (w : World R) : World R :=
  mkWorld (inMemoryRateLimitMap w) c (useRedis w) (rateLimiterInitialized w) (redisStore w).
Definition setUseRedis {R} (b : bool) (w : World R) : World R :=
  mkWorld (inMemoryRateLimitMap w) (redisClient w) b (rateLimiterInitialized w) (redisStore w).
Definition setInitialized {R} (b : bool) (w : World R) : World R :=
  mkWorld (inMemoryRateLimitMap w) (redisClient w) (useRedis w) b (redisStore w).
Definition setStore {R} (r : R) (w : World R) : World R :=
  mkWorld (inMemoryRateLimitMap w) (redisClient w) (useRedis w) (rateLimiterInitialized w) r.

(** The readings of [Date.now()] during one request, in the order of the
    places that read it: on entry of the check, inside the store when it
    serves [incr] and [expire], in the retry hint of the Redis path, and on
    entry of the in-memory check the Redis path falls back to. *)
Record Clock : Type := mkClock {
  t_start : Z;
  t_incr : Z;
  t_expire : Z;
  t_retry : Z;
  t_fallback : Z;
}.

(** Every reading at the same instant. *)
Definition instant (t : Z) : Clock := mkClock t t t t t.

(** [process.env.UPSTASH_REDIS_REST_URL && process.env.UPSTASH_REDIS_REST_TOKEN] *)
Definition redisConfigured (env : Env) : bool :=
  (truthy (env !! "UPSTASH_REDIS_REST_URL"%string)
   && truthy (env !! "UPSTASH_REDIS_REST_TOKEN"%string))%bool.

Section Limiter.

Context (env : Env) {R : Type} (client : RedisClient R).

Definition initializeRedis (w : World R) : World R :=
  if rateLimiterInitialized w then w
  else
    let w := setInitialized true w in
    if redisConfigured env
    then
      match import_ client with
      | Throw _ => setUseRedis false w
      | Normal _ =>
          let w :=
            setClient
              (Some {| url := default EmptyString (env !! "UPSTASH_REDIS_REST_URL"%string);
                       token := default EmptyString (env !! "UPSTASH_REDIS_REST_TOKEN"%string) |})
              w in
          match ping client (redisStore w) with
          | (Normal _, r) => setUseRedis true (setStore r w)
          | (Throw _, r) => setUseRedis false (setStore r w)
          end
      end
    else w.

(** The [catch] block of [checkRedisRateLimit]. *)
Definition redisFallback (clk : Clock) (clientIP : string)
    (limiterType : LimiterType) (w : World R) : Completion Result.t * World R :=
  let w := setUseRedis false w in
  let '(result, m) :=
    checkInMemoryRateLimit env (t_fallback clk) clientIP limiterType
      (inMemoryRateLimitMap w) in
  (Normal result, setMap m w).

Definition checkRedisRateLimit (clk : Clock) (clientIP : string)
    (limiterType : LimiterType) (w : World R) : Completion Result.t * World R :=
  let now := t_start clk in
  let maxRequests := maxRequestsFor env limiterType in
  let sanitizedIP := sanitizeIP clientIP in
  let redisKey := limiterKeyOf limiterType sanitizedIP in
  match redisClient w with
  | None => redisFallback clk clientIP limiterType w
  | Some _ =>
      match incr client (t_incr clk) redisKey (redisStore w) with
      | (Throw _, r) => redisFallback clk clientIP limiterType (setStore r w)
      | (Normal count, r) =>
          match (if count =? 1 then expire client (t_expire clk) redisKey 3600 r
                 else (Normal true, r)) with
          | (Throw _, r) => redisFallback clk clientIP limiterType (setStore r w)
          | (Normal _, r) =>
              let remaining := Z.max 0 (maxRequests - count) in
              let resetTime := now + RATE_LIMIT_WINDOW in
              if maxRequests <? count then
                (Normal (Result.mk false 0 resetTime
                           (Some (60 - floorDiv (remainder (t_retry clk) 60000) 1000))),
                 setStore r w)
              else
                (Normal (Result.mk true remaining resetTime None), setStore r w)
          end
      end
  end.

End Limiter.

(** ** The middleware *)

(** Body of the 429 answer: [{error, retryAfter}]. *)
Inductive Body : Type := TooManyRequests (error : string) (retryAfter : Z).

(** What a middleware call has done to [res] and whether it has called
    [next]. *)
Module Res.
Record t : Type := mk {
  headers : gmap string Z;
  statusCode : option Z;
  body : option Body;
  nextCalls : nat;
}.
Definition fresh : t := mk ∅ None None 0.
Definition setHeader (name : string) (v : Z) (r : t) : t :=
  mk (<[name := v]> (headers r)) (statusCode r) (body r) (nextCalls r).
Definition status (code : Z) (r : t) : t :=
  mk (headers r) (Some code) (body r) (nextCalls r).
Definition json (b : Body) (r : t) : t :=
  mk (headers r) (statusCode r) (Some b) (nextCalls r).
Definition next (r : t) : t :=
  mk (headers r) (statusCode r) (body r) (S (nextCalls r)).
End Res.

Section Middleware.

Context (env : Env) {R : Type} (client : RedisClient R).

(** The [try] block after the initialisation: from [extractClientIP] to
    [next()].  The response is returned as the block leaves it, also when
    it throws. *)
Definition limiterBody (limiterType : LimiterType) (req : Request.t)
    (clk : Clock) (res : Res.t) (w : World R)
  : Completion unit * Res.t * World R :=
  match extractClientIP req with
  | Throw e => (Throw e, res, w)
  | Normal clientIP =>
      let '(checked, w) :=
        if (useRedis w && bool_decide (is_Some (redisClient w)))%bool then
          checkRedisRateLimit env client clk clientIP limiterType w
        else
          let '(result, m) :=
            checkInMemoryRateLimit env (t_start clk) clientIP limiterType
              (inMemoryRateLimitMap w) in
          (Normal result, setMap m w) in
      match checked with
      | Throw e => (Throw e, res, w)
      | Normal result =>
          let maxRequests := maxRequestsFor env limiterType in
          let res := Res.setHeader "X-RateLimit-Limit" maxRequests res in
          let res :=
            Res.setHeader "X-RateLimit-Remaining"
              (Z.max 0 (Result.remaining result)) res in
          let res :=
            Res.setHeader "X-RateLimit-Reset"
              (floorDiv (Result.resetTime result) 1000) res in
          if negb (Result.allowed result) then
            match Result.retryAfter result with
            | None =>
                (Throw "Invalid value undefined for header Retry-After",
                 res, w)
            | Some retryAfter =>
                let res := Res.setHeader "Retry-After" retryAfter res in
                (Normal (),
                 Res.json
                   (TooManyRequests "Too many requests. Please try again later."
                      retryAfter)
                   (Res.status 429 res),
                 w)
            end
          else (Normal (), Res.next res, w)
      end
  end.

(** The [catch] block of the middleware. *)
Definition limiterCatch (limiterType : LimiterType) (res : Res.t) : Res.t :=
  Res.next (Res.setHeader "X-RateLimit-Limit" (maxRequestsFor env limiterType) res).

(** The [try] block from [extractClientIP] on, under its [catch]. *)
Definition limiterTryCatch (limiterType : LimiterType) (req : Request.t)
    (clk : Clock) (w : World R) : Completion unit * Res.t * World R :=
  match limiterBody limiterType req clk Res.fresh w with
  | (Normal u, res, w) => (Normal u, res, w)
  | (Throw _, res, w) => (Normal (), limiterCatch limiterType res, w)
  end.

(** The middleware [createRateLimiter(limiterType)] applied to a request
    and a fresh response. *)
Definition createRateLimiter (limiterType : LimiterType) (req : Request.t)
    (clk : Clock) (w : World R) : Completion unit * Res.t * World R :=
  let w := if rateLimiterInitialized w then w else initializeRedis env client w in
  limiterTryCatch limiterType req clk w.

Definition processingRateLimiter := createRateLimiter processing.
Definition healthCheckRateLimiter := createRateLimiter health.
Definition rateLimiter := processingRateLimiter.

Definition clearAllLimits (w : World R) : World R := setMap ∅ w.

(** Requests handled one after the other by the middleware of one
    namespace; the responses in order. *)
Fixpoint serve (limiterType : LimiterType) (reqs : list (Request.t * Clock))
    (w : World R) : list Res.t * World R :=
  match reqs with
  | [] => ([], w)
  | (req, clk) :: rest =>
      let '(_, res, w) := createRateLimiter limiterType req clk w in
      let '(ress, w) := serve limiterType rest w in
      (res :: ress, w)
  end.

(** *** getRateLimitStatus *)

(** Resolution of an identifier that a function of the module reads from
    the module scope, for the numeric constants the module declares. *)
Definition moduleConstant (name : string) : Completion Z :=
  if String.eqb name "RATE_LIMIT_WINDOW" then Normal RATE_LIMIT_WINDOW
  else if String.eqb name "PROCESSING_RATE_LIMIT_MAX_REQUESTS"
  then Normal (PROCESSING_RATE_LIMIT_MAX_REQUESTS env)
  else if String.eqb name "HEALTH_CHECK_RATE_LIMIT_MAX_REQUESTS"
  then Normal (HEALTH_CHECK_RATE_LIMIT_MAX_REQUESTS env)
  else Throw (name ++ " is not defined").

Inductive Status : Type :=
| RedisStatus (ip : string) (count : Z) (limit : Z)
| InMemoryStatus (ip : string) (count : Z) (limit : Z) (resetTime : option Z)
| ErrorStatus (error : string).

(** [now] is the time at which the store serves [get]. *)
Definition getRateLimitStatus (now : Z) (clientIP : string) (w : World R)
  : Completion Status * World R :=
  if (useRedis w && bool_decide (is_Some (redisClient w)))%bool then
    let sanitizedIP := sanitizeIP clientIP in
    match get client now ("ratelimit:" ++ sanitizedIP)%string (redisStore w) with
    | (Throw e, r) => (Normal (ErrorStatus e), setStore r w)
    | (Normal count, r) =>
        match moduleConstant "RATE_LIMIT_MAX_REQUESTS" with
        | Throw e => (Normal (ErrorStatus e), setStore r w)
        | Normal limit =>
            (Normal (RedisStatus clientIP (default 0 count) limit), setStore r w)
        end
    end
  else
    let limiterKey := ("ratelimit:" ++ clientIP)%string in
    let limiter := inMemoryRateLimitMap w !! limiterKey in
    match moduleConstant "RATE_LIMIT_MAX_REQUESTS" with
    | Throw e => (Throw e, w)
    | Normal limit =>
        (Normal (InMemoryStatus clientIP (default 0 (Limiter.count <$> limiter))
                   limit (Limiter.resetTime <$> limiter)),
         w)
    end.

End Middleware.

(** ** Requests in flight

    Node runs a handler until it reaches an [await] and only then lets
    another handler run.  The middleware suspends at [await
    initializeRedis()] and, when the Redis client is in use, at the calls of
    the client.  The model follows a request through the turns it takes
    while the process works on the in-memory store; a request that suspends
    on the Redis client or on the import of its package is [Suspended] and
    is not followed further.  Any task may be given the next turn, which
    covers every order in which Node can run the handlers. *)

Inductive Task : Type :=
| Arrived (req : Request.t)
| AwaitingInit (req : Request.t)
| Suspended (req : Request.t)
| Finished (res : Res.t).

Section EventLoop.

Context (env : Env) {R : Type} (client : RedisClient R)
        (limiterType : LimiterType).

(** From [extractClientIP] to the end of the handler, in one turn when the
    in-memory store is used. *)
Definition resume (now : Z) (req : Request.t) (w : World R) : Task * World R :=
  if (useRedis w && bool_decide (is_Some (redisClient w)))%bool
  then (Suspended req, w)
  else
    let '(_, res, w) := limiterTryCatch env client limiterType req (instant now) w in
    (Finished res, w).

(** One turn of the handler of a task; [now] is the clock during it. *)
Definition turn (now : Z) (t : Task) (w : World R) : Task * World R :=
  match t with
  | Arrived req =>
      if rateLimiterInitialized w then resume now req w
      else if redisConfigured env
      then (Suspended req, setInitialized true w)
      else (AwaitingInit req, initializeRedis env client w)
  | AwaitingInit req => resume now req w
  | Suspended req => (Suspended req, w)
  | Finished res => (Finished res, w)
  end.

(** The event loop gives a turn to the task at index [i]. *)
Definition dispatch (ev : nat * Z) (tasks : list Task) (w : World R)
  : list Task * World R :=
  match tasks !! ev.1 with
  | None => (tasks, w)
  | Some t => let '(t', w') := turn ev.2 t w in (<[ev.1 := t']> tasks, w')
  end.

Fixpoint eventLoop (schedule : list (nat * Z)) (tasks : list Task) (w : World R)
  : list Task * World R :=
  match schedule with
  | [] => (tasks, w)
  | ev :: rest =>
      let '(tasks', w') := dispatch ev tasks w in
      eventLoop rest tasks' w'
  end.

Definition isFinished (t : Task) : bool :=
  match t with Finished _ => true | _ => false end.

End EventLoop.

(** ** The routes of the server (server.js)

    The API-key check and the middleware chains in front of the three API
    routes.  What the route handlers do once reached (validation of the
    body, image processing) is not part of the model. *)

(** What a middleware of the chain did: it called [next], or it answered
    with a status and an error message. *)
Inductive AuthOutcome : Type :=
| AuthNext
| AuthAnswer (status : Z) (error : string).

(** [apiKeyAuth]; [req.header('API_KEY')] is Express's case-insensitive
    lookup, that is [req.headers['api_key']]. *)
Definition apiKeyAuth (env : Env) (req : Request.t) : Completion AuthOutcome :=
  match Request.headers req with
  | None => Throw "Cannot read properties of undefined (reading 'api_key')"
  | Some hs =>
      if negb (truthy (env !! "API_KEY"%string)) then
        Normal (AuthAnswer 500 "Server error: API key not configured.")
      else
        match hs !! "api_key"%string with
        | Some (HString apiKey) =>
            if (isEmpty apiKey
                || negb (String.eqb apiKey
                           (default EmptyString (env !! "API_KEY"%string))))%bool
            then Normal (AuthAnswer 401 "Unauthorized")
            else Normal AuthNext
        | Some (HArray _) => Normal (AuthAnswer 401 "Unauthorized")
        | None => Normal (AuthAnswer 401 "Unauthorized")
        end
  end.

(** [GET /api/health], [POST /api/ui/process], [POST /api/v1/process]. *)
Inductive Route : Type := apiHealth | apiUiProcess | apiV1Process.

(** The limiter mounted on a route. *)
Definition routeLimiter (route : Route) : LimiterType :=
  match route with
  | apiHealth => health
  | apiUiProcess | apiV1Process => processing
  end.

(** [String.prototype.includes] *)
Fixpoint includes (needle s : string) : bool :=
  (String.prefix needle s
   || match s with
      | EmptyString => false
      | String _ r => includes needle r
      end)%bool.

(** The headers that the first middleware of the stack writes on every
    response before it calls [next()]. *)
Definition securityHeaders : gmap string string :=
  {[ "X-Frame-Options"%string := "DENY"%string;
     "X-Content-Type-Options"%string := "nosniff"%string;
     "X-XSS-Protection"%string := "1; mode=block"%string;
     "Referrer-Policy"%string := "strict-origin-when-cross-origin"%string ]}.

(** The [origin] function handed to [cors]: [callback(null, true)] is
    [Normal true], [callback(new Error('Not allowed by CORS'))] is [Throw].
    For an array, [===] with a string is false and [includes] is the
    array's. *)
Definition corsOrigin (env : Env) (origin : option HeaderValue) : Completion bool :=
  let vercelUrl := env !! "VERCEL_URL"%string in
  match origin with
  | None => Normal true
  | Some (HString o) =>
      if (isEmpty o
          || String.eqb o "http://localhost:3001"
          || (truthy vercelUrl
              && String.eqb o (String.append "https://" (default EmptyString vercelUrl))))%bool
      then Normal true
      else if includes "vercel.app" o then Normal true
           else Throw "Not allowed by CORS"
  | Some (HArray l) =>
      if bool_decide ("vercel.app"%string ∈ l) then Normal true
      else Throw "Not allowed by CORS"
  end.

(** The middleware that the [cors] package builds around that function.
    The package calls it on [req.headers.origin]; given an error it calls
    [next(err)], so that Express's error handler answers and no route is
    entered; otherwise it writes its own headers and, for a request that
    is no preflight (the routes take GET and POST), calls [next()]. *)
Definition corsMiddleware (env : Env) (req : Request.t) : Completion unit :=
  match Request.headers req with
  | None => Throw "Cannot read properties of undefined (reading 'origin')"
  | Some hs =>
      match corsOrigin env (hs !! "origin"%string) with
      | Normal _ => Normal ()
      | Throw e => Throw e
      end
  end.

(** A request as it arrives at the server: the route that its method and
    path select, and what [express.json] makes of its body, [next()] or
    [next(err)] (a body that is no JSON, or one above the limit of 10mb). *)
Module Incoming.
Record t : Type := mk {
  route : Route;
  req : Request.t;
  json : Completion unit;
}.
End Incoming.

(** How far a request gets on a route: stopped by the limiter, stopped by
    the API-key check, or handed to the route handler. *)
Inductive Passage : Type :=
| StoppedByLimiter (res : Res.t)
| StoppedByAuth (res : Res.t) (status : Z) (error : string)
| HandlerReached (res : Res.t).

Section Routes.

Context (env : Env) {R : Type} (client : RedisClient R).

(** What follows the limiter on a route, given the response the limiter
    leaves: nothing when it has not called [next]; otherwise [apiKeyAuth] on
    the authenticated route, and then the handler. *)
Definition passageAfter (route : Route) (req : Request.t) (res : Res.t)
  : Completion Passage :=
  match Res.nextCalls res with
  | O => Normal (StoppedByLimiter res)
  | S _ =>
      match route with
      | apiV1Process =>
          match apiKeyAuth env req with
          | Throw e => Throw e
          | Normal AuthNext => Normal (HandlerReached res)
          | Normal (AuthAnswer status error) =>
              Normal (StoppedByAuth res status error)
          end
      | apiHealth | apiUiProcess => Normal (HandlerReached res)
      end
  end.

(** The middleware listed at [app.get] or [app.post] for the route: the
    limiter, then the rest. *)
Definition routeChain (route : Route) (req : Request.t) (clk : Clock) (w : World R)
  : Completion Passage * World R :=
  let '(_, res, w) := createRateLimiter env client (routeLimiter route) req clk w in
  (passageAfter route req res, w).

(** The chains of the routes, for requests that all get to them. *)
Fixpoint routeChains (calls : list (Route * Request.t * Clock)) (w : World R)
  : list (Completion Passage) * World R :=
  match calls with
  | [] => ([], w)
  | (route, req, clk) :: rest =>
      let '(p, w) := routeChain route req clk w in
      let '(ps, w) := routeChains rest w in
      (p :: ps, w)
  end.

(** The stack of the server for one request, in the order of [app.use]:
    the security headers (see [securityHeaders]; that middleware decides
    nothing), [cors], [express.json], and then the chain of the route.  An
    error handed to [next] ends the request in Express's error handler:
    the chain of the route is not entered. *)
Definition app (a : Incoming.t) (clk : Clock) (w : World R)
  : Completion Passage * World R :=
  match corsMiddleware env (Incoming.req a) with
  | Throw e => (Throw e, w)
  | Normal _ =>
      match Incoming.json a with
      | Throw e => (Throw e, w)
      | Normal _ => routeChain (Incoming.route a) (Incoming.req a) clk w
      end
  end.

(** Requests to the server, one after the other. *)
Fixpoint appRuns (calls : list (Incoming.t * Clock)) (w : World R)
  : list (Completion Passage) * World R :=
  match calls with
  | [] => ([], w)
  | (a, clk) :: rest =>
      let '(p, w) := app a clk w in
      let '(ps, w) := appRuns rest w in
      (p :: ps, w)
  end.

End Routes.

(** ** Slicing the image (api/imageProcessor.js)

    The loop of [splitImageApi] over an image of the given width and
    height.  The pixels are left out: a chunk records the rectangle that
    [crop] is called with. *)

Module Chunk.
Record t : Type := mk {
  id : Z;
  height : Z;
  yOffset : Z;
  (** the arguments of [crop]: x, y, w, h *)
  crop : Z * Z * Z * Z;
}.
End Chunk.

(** The [while (currentY < height)] loop; [None] when the iterations
    allowed by [fuel] do not reach its end. *)
Fixpoint sliceLoop (fuel : nat) (width height targetChunkHeight : Z)
    (currentY chunkId : Z) : option (list Chunk.t) :=
  match fuel with
  | O => None
  | S fuel' =>
      if currentY <? height then
        let actualChunkHeight := Z.min targetChunkHeight (height - currentY) in
        cons (Chunk.mk chunkId actualChunkHeight currentY
                (0, currentY, width, actualChunkHeight))
          <$> sliceLoop fuel' width height targetChunkHeight
                (currentY + actualChunkHeight) (chunkId + 1)
      else Some []
  end.

(** ** Vocabulary of the properties *)

(** The middleware passed the request on and sent no answer of its own. *)
Definition isForwarded (res : Res.t) : bool :=
  bool_decide (Res.nextCalls res = 1%nat ∧ Res.statusCode res = None
               ∧ Res.body res = None).

(** The middleware answered 429 and did not pass the request on. *)
Definition is429 (res : Res.t) : bool :=
  bool_decide (Res.statusCode res = Some 429 ∧ Res.nextCalls res = 0%nat).

(** The first [limit] responses are forwards, every further one is a 429. *)
Definition quotaEnforced (limit : Z) (ress : list Res.t) : Prop :=
  ∀ (i : nat) res, ress !! i = Some res →
    if bool_decide (Z.of_nat i < limit) then isForwarded res = true
    else is429 res = true.

(** The response that carries a decision: the three headers, and either the
    forward or the 429 with its retry hint in header and body. *)
Definition decisionSent (env : Env) (ty : LimiterType) (result : Result.t)
    (res : Res.t) : Prop :=
  Res.headers res !! "X-RateLimit-Limit"%string = Some (maxRequestsFor env ty)
  ∧ Res.headers res !! "X-RateLimit-Remaining"%string
    = Some (Z.max 0 (Result.remaining result))
  ∧ Res.headers res !! "X-RateLimit-Reset"%string
    = Some (floorDiv (Result.resetTime result) 1000)
  ∧ if Result.allowed result then isForwarded res = true
    else is429 res = true
         ∧ ∃ hint, Result.retryAfter result = Some hint
                   ∧ Res.headers res !! "Retry-After"%string = Some hint
                   ∧ Res.body res
                     = Some (TooManyRequests
                               "Too many requests. Please try again later." hint).

(** The process works on the in-memory store and will keep doing so: the
    flag is down and, if the initialisation is still to come, no Redis
    credentials are configured. *)
Definition localBackend (env : Env) {R} (w : World R) : Prop :=
  useRedis w = false
  ∧ (rateLimiterInitialized w = false → redisConfigured env = false).

(** The process has been initialised and works on the Redis store. *)
Definition redisBackend {R} (w : World R) : Prop :=
  rateLimiterInitialized w = true ∧ useRedis w = true ∧ is_Some (redisClient w).

(** No window is running for an in-memory entry at time [now]: the entry is
    absent or its reset time has passed. *)
Definition windowOver (now : Z) (entry : option Limiter.t) : Prop :=
  match entry with
  | None => True
  | Some l => Limiter.resetTime l < now
  end.

(** The same for a key of the mock store. *)
Definition keyGone (now : Z) (entry : option RedisEntry.t) : Prop :=
  match entry with
  | None => True
  | Some e => MockRedisClient.expired now e = true
  end.

(** The decision of the Redis path for a counter value [count]. *)
Definition redisDecision (env : Env) (ty : LimiterType) (clk : Clock) (count : Z)
  : Result.t :=
  if maxRequestsFor env ty <? count then
    Result.mk false 0 (t_start clk + RATE_LIMIT_WINDOW)
      (Some (60 - floorDiv (remainder (t_retry clk) 60000) 1000))
  else
    Result.mk true (Z.max 0 (maxRequestsFor env ty - count))
      (t_start clk + RATE_LIMIT_WINDOW) None.

(** A call of the client throws during [checkRedisRateLimit]: [incr] does,
    or [incr] answers 1 and the [expire] that follows does. *)
Definition redisThrows {R} (client : RedisClient R) (clk : Clock) (key : string)
    (w : World R) : bool :=
  match incr client (t_incr clk) key (redisStore w) with
  | (Throw _, _) => true
  | (Normal count, r) =>
      if count =? 1 then negb (isNormal (expire client (t_expire clk) key 3600 r).1)
      else false
  end.

(** Number of responses that satisfy [p]. *)
Definition countWhere (p : Res.t → bool) (ress : list Res.t) : nat :=
  length (List.filter p ress).

(** What [incr], and the [expire] that follows a first increment, make of
    the entry of a key in the mock store: the value returned and the entry
    left behind. *)
Definition mockIncrement (clk : Clock) (entry : option RedisEntry.t)
  : Z * RedisEntry.t :=
  let opened := (1, RedisEntry.mk 1 (Some (t_expire clk + 3600 * 1000))) in
  match entry with
  | None => opened
  | Some e =>
      if MockRedisClient.expired (t_incr clk) e then opened
      else if RedisEntry.value e + 1 =? 1 then opened
      else (RedisEntry.value e + 1,
            RedisEntry.mk (RedisEntry.value e + 1)
              (MockRedisClient.expiresAtOrNull e))
  end.

(** Traffic on the in-memory backend: checks by different callers, one
    after the other, each at its time; the trace pairs the key of each
    check with its decision. *)
Fixpoint memoryTrace (env : Env) (calls : list (Z * LimiterType * string))
    (m : gmap string Limiter.t) : list (string * Result.t) :=
  match calls with
  | [] => []
  | (now, ty, id) :: rest =>
      (limiterKeyOf ty id, (checkInMemoryRateLimit env now id ty m).1)
      :: memoryTrace env rest (checkInMemoryRateLimit env now id ty m).2
  end.

(** The same on the Redis backend. *)
Fixpoint redisTrace (env : Env) {R} (client : RedisClient R)
    (calls : list (Clock * LimiterType * string)) (w : World R)
  : list (string * Completion Result.t) :=
  match calls with
  | [] => []
  | (clk, ty, id) :: rest =>
      (limiterKeyOf ty (sanitizeIP id),
       (checkRedisRateLimit env client clk id ty w).1)
      :: redisTrace env client rest (checkRedisRateLimit env client clk id ty w).2
  end.

(** The key a call works on, on each backend. *)
Definition memoryKey (call : Z * LimiterType * string) : string :=
  limiterKeyOf call.1.2 call.2.
Definition redisKey (call : Clock * LimiterType * string) : string :=
  limiterKeyOf call.1.2 (sanitizeIP call.2).

(** The leftmost comma-separated entry of a header value. *)
Fixpoint leftmostEntry (s : string) : string :=
  match s with
  | EmptyString => EmptyString
  | String c r => if Ascii.eqb c "," then EmptyString else String c (leftmostEntry r)
  end.

(** The string has a character that is not white space. *)
Fixpoint hasVisible (s : string) : bool :=
  match s with
  | EmptyString => false
  | String c r => (negb (isWhiteSpace c) || hasVisible r)%bool
  end.

(** The count stored for a key, 0 when the key has no entry. *)
Definition storedCount (m : gmap string Limiter.t) (key : string) : Z :=
  default 0 (Limiter.count <$> m !! key).

Definition finishedCount (tasks : list Task) : nat :=
  length (List.filter isFinished tasks).

(** The schedule that runs the requests one after the other, each to its
    end: two turns for each task, at time [now]. *)
Fixpoint serialSchedule (now : Z) (first n : nat) : list (nat * Z) :=
  match n with
  | O => []
  | S n' => (first, now) :: (first, now) :: serialSchedule now (S first) n'
  end.

(** [k] requests of the window that contains [[T, T + window]] have been
    counted for the key. *)
Definition counted (key : string) (T : Z) (k : nat) (m : gmap string Limiter.t)
  : Prop :=
  match k with
  | O => m !! key = None
  | S _ => ∃ r, m !! key = Some (Limiter.mk (Z.of_nat k) r)
                ∧ T + RATE_LIMIT_WINDOW ≤ r
  end.

(** A task that is still under way belongs to a request of the identity; a
    finished one has been forwarded; none is suspended on the Redis
    client. *)
Definition taskOk (id : string) (t : Task) : Prop :=
  match t with
  | Arrived req | AwaitingInit req => extractClientIP req = Normal id
  | Suspended _ => False
  | Finished res => isForwarded res = true
  end.

(** The state of the process while requests of the identity are in flight:
    the in-memory store is in use, every task is in order, and the stored
    count is the number of finished tasks. *)
Definition inFlight (key id : string) {R} (T : Z) (tasks : list Task)
    (w : World R) : Prop :=
  useRedis w = false
  ∧ Forall (taskOk id) tasks
  ∧ counted key T (finishedCount tasks) (inMemoryRateLimitMap w).

(** In-memory checks of one identity at the given times, one after the
    other: the map they leave. *)
Fixpoint checkAtTimes (env : Env) (id : string) (ty : LimiterType)
    (times : list Z) (m : gmap string Limiter.t) : gmap string Limiter.t :=
  match times with
  | [] => m
  | now :: rest =>
      checkAtTimes env id ty rest (checkInMemoryRateLimit env now id ty m).2
  end.

(** The world that a sequence of Redis checks leaves. *)
Fixpoint redisRun (env : Env) {R} (client : RedisClient R)
    (calls : list (Clock * LimiterType * string)) (w : World R) : World R :=
  match calls with
  | [] => w
  | (clk, ty, id) :: rest =>
      redisRun env client rest (checkRedisRateLimit env client clk id ty w).2
  end.

(** Every entry of the mock store has a time of expiry. *)
Definition allExpire (s : gmap string RedisEntry.t) : Prop :=
  ∀ k e, s !! k = Some e → ∃ x, RedisEntry.expiresAt e = Some x ∧ x ≠ 0.

(** The chunks tile the rows from [y] to [height], top to bottom, with
    consecutive ids from [id]: each starts where the previous one ends, is
    [target] rows high unless fewer are left, and has at least one row. *)
Fixpoint tilesFrom (height target : Z) (y id : Z) (chunks : list Chunk.t) : Prop :=
  match chunks with
  | [] => y = height
  | c :: rest =>
      Chunk.id c = id ∧ Chunk.yOffset c = y
      ∧ Chunk.height c = Z.min target (height - y)
      ∧ 1 ≤ Chunk.height c
      ∧ tilesFrom height target (y + Chunk.height c) (id + 1) rest
  end.

Definition totalHeight (chunks : list Chunk.t) : Z :=
  foldr (λ c acc, Chunk.height c + acc) 0 chunks.

(** The string has neither colon nor dot. *)
Fixpoint noColonDot (s : string) : bool :=
  match s with
  | EmptyString => true
  | String c r =>
      (negb (Ascii.eqb c ":") && negb (Ascii.eqb c ".") && noColonDot r)%bool
  end.

(** The three headers of a response that carries a decision. *)
Definition rateHeaders (limit remaining reset : Z) (res : Res.t) : Prop :=
  Res.headers res !! "X-RateLimit-Limit"%string = Some limit
  ∧ Res.headers res !! "X-RateLimit-Remaining"%string = Some remaining
  ∧ Res.headers res !! "X-RateLimit-Reset"%string = Some reset.

(** The count of an entry lies between 1 and the limit (or is 1 when the
    limit is below 1). *)
Definition countInBounds (limit : Z) (entry : option Limiter.t) : Prop :=
  match entry with
  | None => True
  | Some l => 1 ≤ Limiter.count l ≤ Z.max 1 limit
  end.

(** The request gets past [cors] and [express.json], to the routes. *)
Definition reachesRoutes (env : Env) (a : Incoming.t) : bool :=
  (isNormal (corsMiddleware env (Incoming.req a)) && isNormal (Incoming.json a))%bool.

(** The requests that get to the routes, in their order, as the chains of
    the routes see them. *)
Definition reached (env : Env) (calls : list (Incoming.t * Clock))
  : list (Route * Request.t * Clock) :=
  (λ c, (Incoming.route c.1, Incoming.req c.1, c.2))
    <$> List.filter (λ c, reachesRoutes env c.1) calls.

(** ** Sample inputs *)

(** A request that carries only an [x-forwarded-for] header. *)
Definition forwardedFor (xff : string) : Request.t :=
  Request.mk (Some {[ "x-forwarded-for"%string := HString xff ]}) None None.

(** A request without that header, seen from the peer address [addr]. *)
Definition fromPeer (addr : string) : Request.t :=
  Request.mk (Some ∅) (Some addr) (Some (Some addr)).

(** A process that has selected the Redis store. *)
Definition redisWorld {R} (r : R) : World R :=
  mkWorld ∅ (Some {| url := "http://localhost:8079"; token := "mock-token" |})
    true true r.

(** A client whose every call is rejected with a connection error. *)
Definition unreachableRedis : RedisClient unit :=
  {| import_ := Normal ();
     ping := λ r, (Throw "connect ECONNREFUSED", r);
     incr := λ _ _ r, (Throw "connect ECONNREFUSED", r);
     expire := λ _ _ _ r, (Throw "connect ECONNREFUSED", r);
     get := λ _ _ r, (Throw "connect ECONNREFUSED", r) |}.

(** A client that lets [ping] through and rejects every call after it. *)
Definition droppingRedis : RedisClient unit :=
  {| import_ := Normal ();
     ping := λ r, (Normal (), r);
     incr := λ _ _ r, (Throw "fetch failed", r);
     expire := λ _ _ _ r, (Throw "fetch failed", r);
     get := λ _ _ r, (Throw "fetch failed", r) |}.

(** Environment with the two Upstash variables set. *)
Definition upstashEnv : Env :=
  {[ "UPSTASH_REDIS_REST_URL"%string := "http://localhost:8079"%string;
     "UPSTASH_REDIS_REST_TOKEN"%string := "mock-token"%string ]}.

(** * Properties *)

(** ** Keys *)

Lemma limiterKeyOf_inj t1 id1 t2 id2 :
  limiterKeyOf t1 id1 = limiterKeyOf t2 id2 → t1 = t2 ∧ id1 = id2.
Proof.
  destruct t1, t2; cbn; intros H; by simplify_eq.
Qed.

Lemma limiterKeyOf_ne t1 id1 t2 id2 :
  (t1, id1) ≠ (t2, id2) → limiterKeyOf t1 id1 ≠ limiterKeyOf t2 id2.
Proof.
  intros Hne Heq. apply limiterKeyOf_inj in Heq as [-> ->]. by apply Hne.
Qed.

(** ** The in-memory check, case by case *)

Section InMemory.

Context (env : Env).
Implicit Types (m : gmap string Limiter.t) (id : string) (ty : LimiterType).

Lemma checkInMemory_absent now id ty m :
  m !! limiterKeyOf ty id = None →
  checkInMemoryRateLimit env now id ty m =
    (Result.mk true (maxRequestsFor env ty - 1) (now + RATE_LIMIT_WINDOW) None,
     <[limiterKeyOf ty id := Limiter.mk 1 (now + RATE_LIMIT_WINDOW)]> m).
Proof. intros H. unfold checkInMemoryRateLimit. by rewrite H. Qed.

Lemma checkInMemory_expired now id ty m l :
  m !! limiterKeyOf ty id = Some l → Limiter.resetTime l < now →
  checkInMemoryRateLimit env now id ty m =
    (Result.mk true (maxRequestsFor env ty - 1) (now + RATE_LIMIT_WINDOW) None,
     <[limiterKeyOf ty id := Limiter.mk 1 (now + RATE_LIMIT_WINDOW)]> m).
Proof.
  intros H Hlt. unfold checkInMemoryRateLimit. rewrite H.
  by apply Z.ltb_lt in Hlt as ->.
Qed.

Lemma checkInMemory_full now id ty m l :
  m !! limiterKeyOf ty id = Some l → now ≤ Limiter.resetTime l →
  maxRequestsFor env ty ≤ Limiter.count l →
  checkInMemoryRateLimit env now id ty m =
    (Result.mk false 0 (Limiter.resetTime l)
       (Some (ceilDiv (Limiter.resetTime l - now) 1000)), m).
Proof.
  intros H Hle Hfull. unfold checkInMemoryRateLimit. rewrite H.
  apply Z.ltb_ge in Hle as ->. by apply Z.leb_le in Hfull as ->.
Qed.

Lemma checkInMemory_count now id ty m l :
  m !! limiterKeyOf ty id = Some l → now ≤ Limiter.resetTime l →
  Limiter.count l < maxRequestsFor env ty →
  checkInMemoryRateLimit env now id ty m =
    (Result.mk true (maxRequestsFor env ty - (Limiter.count l + 1))
       (Limiter.resetTime l) None,
     <[limiterKeyOf ty id := Limiter.mk (Limiter.count l + 1) (Limiter.resetTime l)]> m).
Proof.
  intros H Hle Hlt. unfold checkInMemoryRateLimit. rewrite H.
  apply Z.ltb_ge in Hle as ->. by apply Z.leb_gt in Hlt as ->.
Qed.

(** A denial always carries a retry hint. *)
Lemma checkInMemory_denied_hint now id ty m :
  Result.allowed (checkInMemoryRateLimit env now id ty m).1 = false →
  is_Some (Result.retryAfter (checkInMemoryRateLimit env now id ty m).1).
Proof.
  unfold checkInMemoryRateLimit.
  destruct (m !! _) as [l|]; [|done].
  destruct (_ <? _); [done|]. destruct (_ <=? _); [by eexists|done].
Qed.

(** The check touches no key but its own. *)
Lemma checkInMemory_frame now id ty m k :
  k ≠ limiterKeyOf ty id →
  (checkInMemoryRateLimit env now id ty m).2 !! k = m !! k.
Proof.
  intros Hne. unfold checkInMemoryRateLimit.
  destruct (m !! limiterKeyOf ty id) as [l|]; cbn;
    [destruct (_ <? _); [|destruct (_ <=? _)]|]; cbn;
    by rewrite ?lookup_insert_ne.
Qed.

End InMemory.

(** ** The middleware on each backend *)

Lemma setInitialized_id {R} (w : World R) :
  rateLimiterInitialized w = true → setInitialized true w = w.
Proof. destruct w; cbn; by intros ->. Qed.

Section Backends.

Context (env : Env).
Implicit Types (id : string) (ty : LimiterType) (clk : Clock).

(** Lines 199 to 214 send the decision they are given. *)
Lemma decision_sent {R} (client : RedisClient R) ty req clk (w : World R) c res w' :
  limiterBody env client ty req clk Res.fresh w = (c, res, w') →
  ∀ id, extractClientIP req = Normal id →
  ∀ result,
    (if (useRedis w && bool_decide (is_Some (redisClient w)))%bool
     then checkRedisRateLimit env client clk id ty w
     else (Normal (checkInMemoryRateLimit env (t_start clk) id ty
                     (inMemoryRateLimitMap w)).1,
           setMap (checkInMemoryRateLimit env (t_start clk) id ty
                     (inMemoryRateLimitMap w)).2 w))
    = (Normal result, w') →
    (Result.allowed result = false → is_Some (Result.retryAfter result)) →
    c = Normal () ∧ decisionSent env ty result res.
Proof.
  unfold limiterBody. intros Hbody id Hid result Hcheck Hhint.
  rewrite Hid in Hbody.
  destruct (useRedis w && _)%bool.
  - rewrite Hcheck in Hbody.
    destruct result as [[] rem rt ra]; cbn in *.
    + by simplify_eq.
    + destruct Hhint as [h ->]; [done|]. simplify_eq. unfold decisionSent; cbn.
      repeat split; eauto.
  - destruct (checkInMemoryRateLimit _ _ _ _ _) as [result' m] eqn:E.
    cbn in Hcheck. simplify_eq.
    destruct result as [[] rem rt ra]; cbn in *.
    + by simplify_eq.
    + destruct Hhint as [h ->]; [done|]. simplify_eq. unfold decisionSent; cbn.
      repeat split; eauto.
Qed.

(** On the in-memory store the middleware is the in-memory check followed
    by its answer; the flag stays down. *)
Lemma createRateLimiter_local {R} (client : RedisClient R) ty req clk (w : World R) id :
  localBackend env w → extractClientIP req = Normal id →
  let checked :=
    checkInMemoryRateLimit env (t_start clk) id ty (inMemoryRateLimitMap w) in
  ∃ res,
    createRateLimiter env client ty req clk w
    = (Normal (), res, setMap checked.2 (setInitialized true w))
    ∧ decisionSent env ty checked.1 res.
Proof.
  intros [Hflag Hinit] Hid checked.
  assert ((if rateLimiterInitialized w then w else initializeRedis env client w)
          = setInitialized true w) as Hw.
  { unfold initializeRedis.
    destruct (rateLimiterInitialized w) eqn:E; [by rewrite setInitialized_id|].
    by rewrite Hinit. }
  unfold createRateLimiter, limiterTryCatch. rewrite Hw.
  destruct (limiterBody _ _ _ _ _ _ _) as [[c res] w'] eqn:Hbody.
  assert (useRedis (setInitialized true w) = false) as Hflag' by done.
  assert (w' = setMap checked.2 (setInitialized true w)) as ->.
  { unfold limiterBody in Hbody. rewrite Hid, Hflag' in Hbody. cbn in Hbody.
    subst checked.
    destruct (checkInMemoryRateLimit _ _ _ _ _) as [result m]. cbn.
    destruct (negb _); [destruct (Result.retryAfter _)|]; by simplify_eq. }
  destruct (decision_sent client ty req clk _ c res _ Hbody id Hid checked.1)
    as [-> Hsent].
  - by rewrite Hflag'.
  - apply checkInMemory_denied_hint.
  - by exists res.
Qed.

Lemma localBackend_step {R} (w : World R) m :
  localBackend env w → localBackend env (setMap m (setInitialized true w)).
Proof. intros [? ?]. by split. Qed.

End Backends.

Section RedisPath.

Context (env : Env).
Implicit Types (id : string) (ty : LimiterType) (clk : Clock).

(** The fallback is the in-memory check at the fallback reading, with the
    flag lowered. *)
Lemma redisFallback_eq {R} clk id ty (w : World R) :
  redisFallback env clk id ty w
  = (Normal (checkInMemoryRateLimit env (t_fallback clk) id ty
               (inMemoryRateLimitMap w)).1,
     setMap (checkInMemoryRateLimit env (t_fallback clk) id ty
               (inMemoryRateLimitMap w)).2 (setUseRedis false w)).
Proof.
  unfold redisFallback. cbn.
  by destruct (checkInMemoryRateLimit _ _ _ _ _).
Qed.

(** The Redis check always comes back with a decision, and a denial
    carries a retry hint. *)
Lemma checkRedis_decides {R} (client : RedisClient R) clk id ty (w : World R) :
  ∃ result,
    (checkRedisRateLimit env client clk id ty w).1 = Normal result
    ∧ (Result.allowed result = false → is_Some (Result.retryAfter result)).
Proof.
  unfold checkRedisRateLimit.
  destruct (redisClient w);
    [destruct (incr _ _ _ _) as [[count|?] ?];
     [destruct (if count =? 1 then _ else _) as [[?|?] ?];
      [destruct (_ <? _)|]|]|];
    rewrite ?redisFallback_eq; cbn; eexists; (split; [done|]); cbn;
    eauto using checkInMemory_denied_hint.
  done.
Qed.

Lemma createRateLimiter_redis {R} (client : RedisClient R) ty req clk (w : World R) id :
  redisBackend w → extractClientIP req = Normal id →
  ∃ result res,
    checkRedisRateLimit env client clk id ty w
    = (Normal result, (checkRedisRateLimit env client clk id ty w).2)
    ∧ createRateLimiter env client ty req clk w
      = (Normal (), res, (checkRedisRateLimit env client clk id ty w).2)
    ∧ decisionSent env ty result res.
Proof.
  intros (Hinit & Hflag & Hclient) Hid.
  destruct (checkRedis_decides client clk id ty w) as (result & Hres & Hhint).
  destruct (checkRedisRateLimit env client clk id ty w) as [c w1] eqn:Hcheck.
  cbn in Hres. subst c.
  unfold createRateLimiter, limiterTryCatch. rewrite Hinit.
  destruct (limiterBody _ _ _ _ _ _ _) as [[c res] w'] eqn:Hbody.
  assert ((useRedis w && bool_decide (is_Some (redisClient w)))%bool = true) as Hmode.
  { rewrite Hflag. cbn. by apply bool_decide_eq_true. }
  assert (w' = w1) as ->.
  { unfold limiterBody in Hbody. rewrite Hid, Hmode, Hcheck in Hbody.
    destruct (negb _); [destruct (Result.retryAfter _)|]; by simplify_eq. }
  destruct (decision_sent env client ty req clk _ c res _ Hbody id Hid result)
    as [-> Hsent]; [by rewrite Hmode|done|].
  by exists result, res.
Qed.

(** *** Against the mock store *)

Implicit Types (s : gmap string RedisEntry.t).

Lemma mock_expired_normalised now e v :
  MockRedisClient.expired now
    (RedisEntry.mk v (MockRedisClient.expiresAtOrNull e))
  = MockRedisClient.expired now e.
Proof.
  unfold MockRedisClient.expired, MockRedisClient.expiresAtOrNull. cbn.
  destruct (RedisEntry.expiresAt e) as [x|]; [|done].
  destruct (x =? 0) eqn:E; cbn; [done|]. by rewrite E.
Qed.

(** A request in a running window: the counter goes up by one and the
    decision is taken on the new value. *)
Lemma checkRedis_mock_count clk id ty (w : World (gmap string RedisEntry.t)) e :
  is_Some (redisClient w) →
  redisStore w !! limiterKeyOf ty (sanitizeIP id) = Some e →
  MockRedisClient.expired (t_incr clk) e = false →
  RedisEntry.value e ≠ 0 →
  checkRedisRateLimit env createMockRedis clk id ty w
  = (Normal (redisDecision env ty clk (RedisEntry.value e + 1)),
     setStore
       (<[limiterKeyOf ty (sanitizeIP id) :=
            RedisEntry.mk (RedisEntry.value e + 1)
              (MockRedisClient.expiresAtOrNull e)]> (redisStore w)) w).
Proof.
  intros [c Hc] He Hlive Hv. unfold checkRedisRateLimit. rewrite Hc. cbn.
  unfold MockRedisClient.incr. rewrite He, Hlive.
  destruct (RedisEntry.value e + 1 =? 1) eqn:E; [lia|].
  unfold redisDecision. by destruct (_ <? _).
Qed.

(** The first request of a window: the counter is 1 and the key expires
    one hour after the store served [expire]. *)
Lemma checkRedis_mock_first clk id ty (w : World (gmap string RedisEntry.t)) :
  is_Some (redisClient w) →
  keyGone (t_incr clk) (redisStore w !! limiterKeyOf ty (sanitizeIP id)) →
  ∃ s',
    checkRedisRateLimit env createMockRedis clk id ty w
    = (Normal (redisDecision env ty clk 1), setStore s' w)
    ∧ s' !! limiterKeyOf ty (sanitizeIP id)
      = Some (RedisEntry.mk 1 (Some (t_expire clk + 3600 * 1000)))
    ∧ ∀ k, k ≠ limiterKeyOf ty (sanitizeIP id) → s' !! k = redisStore w !! k.
Proof.
  intros [c Hc] Hgone. unfold checkRedisRateLimit. rewrite Hc. cbn.
  unfold MockRedisClient.incr.
  destruct (redisStore w !! _) as [e|] eqn:He; cbn in Hgone;
    [rewrite Hgone|]; cbn; unfold MockRedisClient.expire;
    rewrite lookup_insert_eq; cbn; unfold redisDecision;
    eexists; (split; [by destruct (_ <? _)|]);
    (split; [by rewrite lookup_insert_eq|]);
    intros k Hk; by rewrite !lookup_insert_ne, ?lookup_delete_ne.
Qed.

End RedisPath.

(** ** Counting within a window *)

Section Quota.

Context (env : Env).
Implicit Types (id : string) (ty : LimiterType) (clk : Clock).

Lemma serve_cons {R} (client : RedisClient R) ty req clk rest (w : World R) :
  serve env client ty ((req, clk) :: rest) w
  = ((createRateLimiter env client ty req clk w).1.2
       :: (serve env client ty rest (createRateLimiter env client ty req clk w).2).1,
     (serve env client ty rest (createRateLimiter env client ty req clk w).2).2).
Proof.
  cbn. destruct (createRateLimiter _ _ _ _ _ _) as [[c res] w']. cbn.
  by destruct (serve _ _ _ _ _).
Qed.

(** In-memory store, window running with [k] requests counted: the
    response number [i] from here is a forward exactly when
    [k + i < limit]. *)
Lemma serve_local_window {R} (client : RedisClient R) ty id reqs :
  ∀ (w : World R) k r,
    localBackend env w →
    inMemoryRateLimitMap w !! limiterKeyOf ty id = Some (Limiter.mk k r) →
    Forall (λ rc, extractClientIP rc.1 = Normal id ∧ t_start rc.2 ≤ r) reqs →
    ∀ (i : nat) res, (serve env client ty reqs w).1 !! i = Some res →
      if bool_decide (k + Z.of_nat i < maxRequestsFor env ty)
      then isForwarded res = true else is429 res = true.
Proof.
  induction reqs as [|[req clk] rest IH]; intros w k r Hloc Hk Hall i res Hi;
    [done|].
  apply Forall_cons in Hall as [[Hid Ht] Hall]. cbn in Hid, Ht.
  rewrite serve_cons in Hi. cbn in Hi.
  destruct (createRateLimiter_local env client ty req clk w id Hloc Hid)
    as (res0 & Hmw & Hsent).
  rewrite Hmw in Hi. cbn in Hi.
  destruct (decide (maxRequestsFor env ty ≤ k)) as [Hfull|Hroom].
  - rewrite (checkInMemory_full env _ id ty _ _ Hk Ht Hfull) in Hi, Hsent.
    cbn in Hi, Hsent. destruct Hsent as (_ & _ & _ & H429 & _).
    rewrite bool_decide_eq_false_2 by lia.
    destruct i as [|i]; cbn in Hi; [by simplify_eq|].
    eapply (IH _ k r) in Hi; [|by apply localBackend_step|done|done].
    by rewrite bool_decide_eq_false_2 in Hi by lia.
  - rewrite (checkInMemory_count env _ id ty _ _ Hk Ht) in Hi, Hsent
      by (cbn; lia).
    cbn in Hi, Hsent. destruct Hsent as (_ & _ & _ & Hfwd).
    destruct i as [|i]; cbn in Hi.
    + simplify_eq. by rewrite bool_decide_eq_true_2 by lia.
    + eapply (IH _ (k + 1) r) in Hi;
        [|by apply localBackend_step|by cbn; rewrite lookup_insert_eq|done].
      replace (k + Z.of_nat (S i)) with (k + 1 + Z.of_nat i) by lia. done.
Qed.

(** In-memory store, no window running: the first request opens one and is
    forwarded; the window then has one request counted. *)
Lemma serve_local_opening {R} (client : RedisClient R) ty id req clk rest (w : World R) :
  localBackend env w →
  windowOver (t_start clk) (inMemoryRateLimitMap w !! limiterKeyOf ty id) →
  extractClientIP req = Normal id →
  Forall (λ rc, extractClientIP rc.1 = Normal id
                ∧ t_start rc.2 ≤ t_start clk + RATE_LIMIT_WINDOW) rest →
  ∀ (i : nat) res,
    (serve env client ty ((req, clk) :: rest) w).1 !! i = Some res →
    if bool_decide (1 ≤ i)%nat
    then if bool_decide (Z.of_nat i < maxRequestsFor env ty)
         then isForwarded res = true else is429 res = true
    else isForwarded res = true.
Proof.
  intros Hloc Hover Hid Hall i res Hi.
  rewrite serve_cons in Hi. cbn in Hi.
  destruct (createRateLimiter_local env client ty req clk w id Hloc Hid)
    as (res0 & Hmw & Hsent).
  rewrite Hmw in Hi. cbn in Hi.
  assert (checkInMemoryRateLimit env (t_start clk) id ty (inMemoryRateLimitMap w)
          = (Result.mk true (maxRequestsFor env ty - 1)
               (t_start clk + RATE_LIMIT_WINDOW) None,
             <[limiterKeyOf ty id := Limiter.mk 1 (t_start clk + RATE_LIMIT_WINDOW)]>
               (inMemoryRateLimitMap w))) as Hopen.
  { destruct (inMemoryRateLimitMap w !! limiterKeyOf ty id) as [l|] eqn:E.
    - by eapply checkInMemory_expired.
    - by apply checkInMemory_absent. }
  rewrite Hopen in Hi, Hsent. cbn in Hi, Hsent.
  destruct Hsent as (_ & _ & _ & Hfwd).
  destruct i as [|i]; cbn in Hi; [by simplify_eq|].
  rewrite bool_decide_eq_true_2 by lia.
  eapply (serve_local_window client ty id rest _ 1) in Hi;
    [|by apply localBackend_step|by cbn; rewrite lookup_insert_eq|done].
  replace (Z.of_nat (S i)) with (1 + Z.of_nat i) by lia. done.
Qed.

End Quota.

Section QuotaRedis.

Context (env : Env).
Implicit Types (id : string) (ty : LimiterType) (clk : Clock)
         (w : World (gmap string RedisEntry.t)).

Lemma redisBackend_setStore {R} (w : World R) (r : R) :
  redisBackend w → redisBackend (setStore r w).
Proof. by intros (? & ? & ?). Qed.

Lemma redisDecision_sent ty clk count res :
  decisionSent env ty (redisDecision env ty clk count) res →
  if bool_decide (count ≤ maxRequestsFor env ty)
  then isForwarded res = true else is429 res = true.
Proof.
  unfold redisDecision. intros (_ & _ & _ & H).
  destruct (_ <? _) eqn:E; cbn in H.
  - apply Z.ltb_lt in E. rewrite bool_decide_eq_false_2 by lia. tauto.
  - apply Z.ltb_ge in E. by rewrite bool_decide_eq_true_2 by lia.
Qed.

(** Mock store, key alive with value [k ≥ 1]: the response number [i] from
    here is a forward exactly when [k + i < limit]. *)
Lemma serve_redis_window ty id reqs :
  ∀ w e,
    redisBackend w →
    redisStore w !! limiterKeyOf ty (sanitizeIP id) = Some e →
    1 ≤ RedisEntry.value e →
    Forall (λ rc, extractClientIP rc.1 = Normal id
                  ∧ MockRedisClient.expired (t_incr rc.2) e = false) reqs →
    ∀ (i : nat) res, (serve env createMockRedis ty reqs w).1 !! i = Some res →
      if bool_decide (RedisEntry.value e + Z.of_nat i < maxRequestsFor env ty)
      then isForwarded res = true else is429 res = true.
Proof.
  induction reqs as [|[req clk] rest IH]; intros w e Hmode He Hv Hall i res Hi;
    [done|].
  apply Forall_cons in Hall as [[Hid Hlive] Hall]. cbn in Hid, Hlive.
  rewrite serve_cons in Hi. cbn in Hi.
  destruct (createRateLimiter_redis env createMockRedis ty req clk w id Hmode Hid)
    as (result & res0 & Hcheck & Hmw & Hsent).
  rewrite Hmw in Hi. cbn in Hi.
  pose proof Hmode as (_ & _ & Hclient).
  rewrite (checkRedis_mock_count env clk id ty w e) in Hcheck, Hi
    by (done || lia).
  cbn in Hcheck, Hi. injection Hcheck as <-.
  apply redisDecision_sent in Hsent.
  destruct i as [|i]; cbn in Hi.
  - simplify_eq. rewrite Z.add_0_r.
    destruct (bool_decide (_ ≤ _)) eqn:E1.
    + apply bool_decide_eq_true in E1. by rewrite bool_decide_eq_true_2 by lia.
    + apply bool_decide_eq_false in E1. by rewrite bool_decide_eq_false_2 by lia.
  - eapply (IH _ (RedisEntry.mk (RedisEntry.value e + 1)
                    (MockRedisClient.expiresAtOrNull e))) in Hi.
    + cbn in Hi.
      replace (RedisEntry.value e + Z.of_nat (S i))
        with (RedisEntry.value e + 1 + Z.of_nat i) by lia. done.
    + by apply redisBackend_setStore.
    + cbn. by rewrite lookup_insert_eq.
    + cbn. lia.
    + eapply Forall_impl; [exact Hall|]. intros rc [? ?].
      by rewrite mock_expired_normalised.
Qed.

(** Mock store, key gone: the first request creates it with value 1 and a
    one-hour expiry. *)
Lemma serve_redis_opening ty id req clk rest w :
  redisBackend w →
  keyGone (t_incr clk) (redisStore w !! limiterKeyOf ty (sanitizeIP id)) →
  extractClientIP req = Normal id →
  Forall (λ rc, extractClientIP rc.1 = Normal id
                ∧ t_incr rc.2 ≤ t_expire clk + 3600 * 1000) rest →
  quotaEnforced (maxRequestsFor env ty)
    (serve env createMockRedis ty ((req, clk) :: rest) w).1.
Proof.
  intros Hmode Hgone Hid Hall i res Hi.
  rewrite serve_cons in Hi. cbn in Hi.
  destruct (createRateLimiter_redis env createMockRedis ty req clk w id Hmode Hid)
    as (result & res0 & Hcheck & Hmw & Hsent).
  rewrite Hmw in Hi. cbn in Hi.
  pose proof Hmode as (_ & _ & Hclient).
  destruct (checkRedis_mock_first env clk id ty w Hclient Hgone)
    as (s' & Hfirst & Hs' & _).
  rewrite Hfirst in Hcheck, Hi. cbn in Hcheck, Hi. injection Hcheck as <-.
  apply redisDecision_sent in Hsent.
  destruct i as [|i]; cbn in Hi.
  - simplify_eq. cbn.
    destruct (bool_decide (1 ≤ _)) eqn:E1.
    + apply bool_decide_eq_true in E1. by rewrite bool_decide_eq_true_2 by lia.
    + apply bool_decide_eq_false in E1. by rewrite bool_decide_eq_false_2 by lia.
  - eapply (serve_redis_window ty id rest _
              (RedisEntry.mk 1 (Some (t_expire clk + 3600 * 1000)))) in Hi.
    + cbn in Hi.
      replace (Z.of_nat (S i)) with (1 + Z.of_nat i) by lia. exact Hi.
    + by apply redisBackend_setStore.
    + exact Hs'.
    + cbn. lia.
    + eapply Forall_impl; [exact Hall|]. intros rc [? Hle]. split; [done|].
      unfold MockRedisClient.expired. cbn.
      apply andb_false_intro2. apply Z.ltb_ge. exact Hle.
Qed.

End QuotaRedis.

(** C1. Within one window the first [limit] requests of an identity are
    forwarded and every further one is answered 429, in either namespace
    and on either backend: on the in-memory store, from a request that
    opens a window (no entry, or reset time passed) while the following
    ones arrive no later than its reset time, for a limit of at least 1;
    on the Redis store (the mock), from a request that creates the key
    while the following increments are served before the key expires. *)
Theorem quota_enforced_in_window (env : Env) (ty : LimiterType) (id : string)
    (req : Request.t) (clk : Clock) (rest : list (Request.t * Clock)) :
  extractClientIP req = Normal id →
  Forall (λ rc, extractClientIP rc.1 = Normal id) rest →
  (∀ {R} (client : RedisClient R) (w : World R),
     1 ≤ maxRequestsFor env ty →
     localBackend env w →
     windowOver (t_start clk) (inMemoryRateLimitMap w !! limiterKeyOf ty id) →
     Forall (λ rc, t_start rc.2 ≤ t_start clk + RATE_LIMIT_WINDOW) rest →
     quotaEnforced (maxRequestsFor env ty)
       (serve env client ty ((req, clk) :: rest) w).1)
  ∧ (∀ w : World (gmap string RedisEntry.t),
       redisBackend w →
       keyGone (t_incr clk) (redisStore w !! limiterKeyOf ty (sanitizeIP id)) →
       Forall (λ rc, t_incr rc.2 ≤ t_expire clk + 3600 * 1000) rest →
       quotaEnforced (maxRequestsFor env ty)
         (serve env createMockRedis ty ((req, clk) :: rest) w).1).
Proof.
  intros Hid Hids. split.
  - intros R client w Hlimit Hloc Hover Hwin i res Hi.
    eapply (serve_local_opening env client ty id req clk rest w) in Hi; try done.
    + destruct i as [|i]; cbn in Hi.
      * by rewrite bool_decide_eq_true_2 by lia.
      * by rewrite bool_decide_eq_true_2 in Hi by lia.
    + apply Forall_and. by split.
  - intros w Hmode Hgone Hlive.
    apply (serve_redis_opening env ty id); try done.
    apply Forall_and. by split.
Qed.

Ltac each_request tac :=
  cbn [replicate]; repeat (apply Forall_cons_2; [tac|]); apply Forall_nil_2.

Lemma quota_enforced_in_window_witness :
  let burst := replicate 11 (forwardedFor "1.2.3.4", instant 2000) in
  maxRequestsFor ∅ processing = 10
  ∧ quotaEnforced (maxRequestsFor ∅ processing)
      (serve ∅ createMockRedis processing
         ((forwardedFor "1.2.3.4", instant 1000) :: burst) (freshWorld ∅)).1
  ∧ quotaEnforced (maxRequestsFor ∅ processing)
      (serve ∅ createMockRedis processing
         ((forwardedFor "1.2.3.4", instant 1000) :: burst) (redisWorld ∅)).1.
Proof.
  split; [reflexivity|].
  destruct (quota_enforced_in_window ∅ processing "1.2.3.4"
              (forwardedFor "1.2.3.4") (instant 1000)
              (replicate 11 (forwardedFor "1.2.3.4", instant 2000)))
    as [Hlocal Hredis].
  - reflexivity.
  - each_request ltac:(exact eq_refl).
  - split.
    + apply Hlocal.
      * vm_compute. discriminate.
      * split; [reflexivity|]. intros _. reflexivity.
      * exact I.
      * each_request ltac:(vm_compute; discriminate).
    + apply Hredis.
      * split; [reflexivity|]. split; [reflexivity|]. eexists. reflexivity.
      * exact I.
      * each_request ltac:(vm_compute; discriminate).
Defined.

(** ** Falling back from Redis *)

Section Fallback.

Context (env : Env) {R : Type} (client : RedisClient R).
Implicit Types (id : string) (ty : LimiterType) (clk : Clock) (w : World R).

(** A throwing client call is caught: the decision is the one of the
    in-memory check at the fallback reading, and the flag is lowered. *)
Lemma checkRedis_caught clk id ty w :
  is_Some (redisClient w) →
  redisThrows client clk (limiterKeyOf ty (sanitizeIP id)) w = true →
  let checked :=
    checkInMemoryRateLimit env (t_fallback clk) id ty (inMemoryRateLimitMap w) in
  ∃ w',
    checkRedisRateLimit env client clk id ty w = (Normal checked.1, w')
    ∧ inMemoryRateLimitMap w' = checked.2
    ∧ useRedis w' = false
    ∧ rateLimiterInitialized w' = rateLimiterInitialized w.
Proof.
  intros [c Hc] Hthrow checked. unfold checkRedisRateLimit, redisThrows in *.
  rewrite Hc.
  destruct (incr _ _ _ _) as [[count|msg] r].
  - destruct (count =? 1); [|done].
    destruct (expire _ _ _ _ _) as [[b|msg] r']; [done|].
    rewrite redisFallback_eq. by eexists.
  - rewrite redisFallback_eq. by eexists.
Qed.

Lemma initializeRedis_done w :
  rateLimiterInitialized (initializeRedis env client w) = true
  ∧ inMemoryRateLimitMap (initializeRedis env client w) = inMemoryRateLimitMap w.
Proof.
  unfold initializeRedis.
  destruct (rateLimiterInitialized w) eqn:E; [done|].
  destruct (redisConfigured env); [|done].
  destruct (import_ client); [|done].
  cbn. by destruct (ping client _) as [[]].
Qed.

(** Once the process is initialised with the flag down, neither the
    middleware nor [initializeRedis] raises it again, and the store is
    left alone. *)
Lemma local_is_final ty req clk w :
  rateLimiterInitialized w = true → useRedis w = false →
  let w' := (createRateLimiter env client ty req clk w).2 in
  rateLimiterInitialized w' = true ∧ useRedis w' = false
  ∧ redisStore w' = redisStore w ∧ redisClient w' = redisClient w.
Proof.
  intros Hinit Hflag. unfold createRateLimiter, limiterTryCatch, limiterBody.
  rewrite Hinit, Hflag. cbn.
  destruct (extractClientIP req) as [id|msg]; [|done].
  destruct (checkInMemoryRateLimit _ _ _ _ _) as [result m]. cbn.
  destruct (negb _); [destruct (Result.retryAfter _)|]; done.
Qed.

Lemma local_is_final_serve ty reqs :
  ∀ w, rateLimiterInitialized w = true → useRedis w = false →
    let w' := (serve env client ty reqs w).2 in
    rateLimiterInitialized w' = true ∧ useRedis w' = false
    ∧ redisStore w' = redisStore w ∧ redisClient w' = redisClient w.
Proof.
  induction reqs as [|[req clk] rest IH]; intros w Hinit Hflag; [done|].
  rewrite serve_cons. cbn.
  destruct (local_is_final ty req clk w Hinit Hflag) as (H1 & H2 & H3 & H4).
  destruct (IH _ H1 H2) as (? & ? & ? & ?). repeat split; congruence.
Qed.

Lemma initializeRedis_client w :
  (useRedis w = true → is_Some (redisClient w)) →
  useRedis (initializeRedis env client w) = true →
  is_Some (redisClient (initializeRedis env client w)).
Proof.
  unfold initializeRedis. intros Hwf.
  destruct (rateLimiterInitialized w); [done|].
  destruct (redisConfigured env); [|done].
  destruct (import_ client); [|done].
  cbn. by destruct (ping client _) as [[]].
Qed.

(** With a client whose [incr] always throws, the first request of an
    identity without entry is decided by the in-memory check, at the
    entry reading or at the fallback reading, whatever the mode of the
    process was; afterwards the process is on the in-memory store. *)
Lemma first_request_failing_redis ty req clk w id :
  (∀ t k r, isNormal (incr client t k r).1 = false) →
  (useRedis w = true → is_Some (redisClient w)) →
  extractClientIP req = Normal id →
  inMemoryRateLimitMap w !! limiterKeyOf ty id = None →
  ∃ t0 res w',
    (t0 = t_start clk ∨ t0 = t_fallback clk)
    ∧ createRateLimiter env client ty req clk w = (Normal (), res, w')
    ∧ isForwarded res = true
    ∧ localBackend env w'
    ∧ inMemoryRateLimitMap w' !! limiterKeyOf ty id
      = Some (Limiter.mk 1 (t0 + RATE_LIMIT_WINDOW)).
Proof.
  intros Hfail Hwf Hid Hnone.
  unfold createRateLimiter.
  set (w1 := if rateLimiterInitialized w then w else initializeRedis env client w).
  assert (rateLimiterInitialized w1 = true
          ∧ inMemoryRateLimitMap w1 = inMemoryRateLimitMap w
          ∧ (useRedis w1 = true → is_Some (redisClient w1)))
    as (Hinit & Hmap & Hwf1).
  { subst w1. destruct (rateLimiterInitialized w) eqn:E; [done|].
    destruct (initializeRedis_done w). auto using initializeRedis_client. }
  clearbody w1. unfold limiterTryCatch.
  destruct (limiterBody _ _ _ _ _ _ _) as [[c res] w'] eqn:Hbody.
  destruct (useRedis w1) eqn:Hflag.
  - pose proof (Hwf1 eq_refl) as Hclient.
    destruct (checkRedis_caught clk id ty w1 Hclient) as (w2 & Hcheck & Hm & Hf & Hi).
    { unfold redisThrows. specialize (Hfail (t_incr clk)
        (limiterKeyOf ty (sanitizeIP id)) (redisStore w1)).
      by destruct (incr _ _ _ _) as [[]]. }
    rewrite Hmap, (checkInMemory_absent env _ id ty _ Hnone) in Hcheck, Hm.
    cbn in Hcheck, Hm.
    assert (w' = w2) as ->.
    { unfold limiterBody in Hbody.
      rewrite Hid, Hflag, (bool_decide_eq_true_2 _ Hclient) in Hbody.
      cbn in Hbody. rewrite Hcheck in Hbody. cbn in Hbody. by simplify_eq. }
    destruct (decision_sent env client ty req clk _ c res _ Hbody id Hid
                (Result.mk true (maxRequestsFor env ty - 1)
                   (t_fallback clk + RATE_LIMIT_WINDOW) None))
      as [-> Hsent].
    + rewrite Hflag, (bool_decide_eq_true_2 _ Hclient). cbn. exact Hcheck.
    + done.
    + exists (t_fallback clk), res, w2. destruct Hsent as (_ & _ & _ & Hfwd).
      repeat split; auto.
      * congruence.
      * rewrite Hm. by rewrite lookup_insert_eq.
  - assert (w' = setMap (checkInMemoryRateLimit env (t_start clk) id ty
                           (inMemoryRateLimitMap w1)).2 w1) as ->.
    { unfold limiterBody in Hbody. rewrite Hid, Hflag in Hbody. cbn in Hbody.
      destruct (checkInMemoryRateLimit _ _ _ _ _) as [result m]. cbn.
      destruct (negb _); [destruct (Result.retryAfter _)|]; by simplify_eq. }
    destruct (decision_sent env client ty req clk _ c res _ Hbody id Hid
                (checkInMemoryRateLimit env (t_start clk) id ty
                   (inMemoryRateLimitMap w1)).1)
      as [-> Hsent].
    + by rewrite Hflag.
    + apply checkInMemory_denied_hint.
    + rewrite Hmap, (checkInMemory_absent env _ id ty _ Hnone) in Hsent |- *.
      cbn in Hsent |- *.
      exists (t_start clk), res. eexists. destruct Hsent as (_ & _ & _ & Hfwd).
      split; [by left|]. split; [done|]. split; [done|]. split.
      * split; cbn; [done|congruence].
      * cbn. by rewrite lookup_insert_eq.
Qed.

End Fallback.

(** ** Counting forwards and rejections *)

Lemma forwarded_not_429 res : isForwarded res = true → is429 res = false.
Proof.
  unfold isForwarded, is429. intros H%bool_decide_eq_true.
  apply bool_decide_eq_false. intros [? ?]. destruct H as (? & ? & ?). congruence.
Qed.

Lemma rejected_not_forwarded res : is429 res = true → isForwarded res = false.
Proof.
  unfold isForwarded, is429. intros H%bool_decide_eq_true.
  apply bool_decide_eq_false. intros (? & ? & ?). destruct H. congruence.
Qed.

Lemma count_quota ress :
  ∀ k limit,
    (∀ (i : nat) res, ress !! i = Some res →
       if bool_decide (k + Z.of_nat i < limit)
       then isForwarded res = true else is429 res = true) →
    Z.of_nat (countWhere isForwarded ress)
    = Z.max 0 (Z.min (Z.of_nat (length ress)) (limit - k))
    ∧ (countWhere isForwarded ress + countWhere is429 ress = length ress)%nat.
Proof.
  unfold countWhere.
  induction ress as [|res ress IH]; intros k limit H; [cbn; lia|].
  pose proof (H 0%nat res eq_refl) as H0. rewrite Z.add_0_r in H0.
  destruct (IH (k + 1) limit) as [IH1 IH2].
  { intros i r Hi. specialize (H (S i) r Hi).
    by replace (k + 1 + Z.of_nat i) with (k + Z.of_nat (S i)) by lia. }
  cbn [List.filter length].
  destruct (bool_decide (k < limit)) eqn:E.
  - apply bool_decide_eq_true in E.
    rewrite H0, (forwarded_not_429 _ H0). cbn [length]. lia.
  - apply bool_decide_eq_false in E.
    rewrite H0, (rejected_not_forwarded _ H0). cbn [length]. lia.
Qed.

Lemma serve_length {R} env (client : RedisClient R) ty reqs :
  ∀ w, length (serve env client ty reqs w).1 = length reqs.
Proof.
  induction reqs as [|[req clk] rest IH]; intros w; [done|].
  rewrite serve_cons. cbn. by rewrite IH.
Qed.

(** C2. A throwing client call in [checkRedisRateLimit] is not passed on:
    the request gets the decision of the in-memory check, which the
    middleware sends, and the flag [useRedis] is lowered in a process that
    stays initialised; from then on every request, of either namespace,
    leaves the flag down and the store alone, and so does
    [initializeRedis]; and with a
    client whose [incr] throws at every call, 15 requests of one identity
    within a window under a limit of 10 give exactly 10 forwards and 5
    rejections. *)
Theorem redis_failure_falls_back (env : Env) {R} (client : RedisClient R) :
  (∀ clk id ty (w : World R),
     is_Some (redisClient w) →
     redisThrows client clk (limiterKeyOf ty (sanitizeIP id)) w = true →
     ∃ w',
       checkRedisRateLimit env client clk id ty w
       = (Normal (checkInMemoryRateLimit env (t_fallback clk) id ty
                    (inMemoryRateLimitMap w)).1, w')
       ∧ inMemoryRateLimitMap w'
         = (checkInMemoryRateLimit env (t_fallback clk) id ty
              (inMemoryRateLimitMap w)).2
       ∧ useRedis w' = false)
  ∧ (∀ ty req clk id (w : World R),
       redisBackend w → extractClientIP req = Normal id →
       redisThrows client clk (limiterKeyOf ty (sanitizeIP id)) w = true →
       ∃ res w',
         createRateLimiter env client ty req clk w = (Normal (), res, w')
         ∧ decisionSent env ty
             (checkInMemoryRateLimit env (t_fallback clk) id ty
                (inMemoryRateLimitMap w)).1 res
         ∧ rateLimiterInitialized w' = true ∧ useRedis w' = false)
  ∧ (∀ ty req clk (w : World R),
       rateLimiterInitialized w = true → useRedis w = false →
       let w' := (createRateLimiter env client ty req clk w).2 in
       rateLimiterInitialized w' = true ∧ useRedis w' = false
       ∧ redisStore w' = redisStore w)
  ∧ (∀ ty reqs (w : World R),
       rateLimiterInitialized w = true → useRedis w = false →
       let w' := (serve env client ty reqs w).2 in
       useRedis w' = false ∧ redisStore w' = redisStore w
       ∧ useRedis (initializeRedis env client w') = false)
  ∧ (∀ ty id req clk rest (w : World R),
       (∀ t k r, isNormal (incr client t k r).1 = false) →
       maxRequestsFor env ty = 10 →
       (useRedis w = true → is_Some (redisClient w)) →
       inMemoryRateLimitMap w !! limiterKeyOf ty id = None →
       extractClientIP req = Normal id →
       length rest = 14%nat →
       Forall (λ rc, extractClientIP rc.1 = Normal id
                     ∧ t_start rc.2 ≤ t_start clk + RATE_LIMIT_WINDOW
                     ∧ t_start rc.2 ≤ t_fallback clk + RATE_LIMIT_WINDOW) rest →
       let ress := (serve env client ty ((req, clk) :: rest) w).1 in
       quotaEnforced 10 ress
       ∧ countWhere isForwarded ress = 10%nat
       ∧ countWhere is429 ress = 5%nat).
Proof.
  split; [|split; [|split; [|split]]].
  - intros clk id ty w Hclient Hthrow.
    destruct (checkRedis_caught env client clk id ty w Hclient Hthrow)
      as (w' & ? & ? & ? & _).
    by exists w'.
  - intros ty req clk id w Hmode Hid Hthrow.
    pose proof Hmode as (Hinit & _ & Hclient).
    destruct (checkRedis_caught env client clk id ty w Hclient Hthrow)
      as (w' & Hcheck & _ & Hflag & Hinit').
    destruct (createRateLimiter_redis env client ty req clk w id Hmode Hid)
      as (result & res & Hcheck' & Hmw & Hsent).
    rewrite Hcheck in Hcheck', Hmw. cbn in Hcheck', Hmw.
    exists res, w'. split; [done|]. split; [by simplify_eq|].
    split; [congruence|done].
  - intros ty req clk w Hinit Hflag.
    destruct (local_is_final env client ty req clk w Hinit Hflag)
      as (? & ? & ? & _).
    done.
  - intros ty reqs w Hinit Hflag.
    destruct (local_is_final_serve env client ty reqs w Hinit Hflag)
      as (Hi & Hf & Hs & _).
    cbn. repeat split; [done..|].
    unfold initializeRedis. by rewrite Hi.
  - intros ty id req clk rest w Hfail Hlimit Hwf Hnone Hid Hlen Hall ress.
    assert (quotaEnforced 10 ress) as Hq.
    { intros i res Hi. subst ress. rewrite serve_cons in Hi.
      destruct (first_request_failing_redis env client ty req clk w id
                  Hfail Hwf Hid Hnone)
        as (t0 & res0 & w' & Ht0 & Hmw & Hfwd & Hloc & Hentry).
      rewrite Hmw in Hi. cbn in Hi.
      destruct i as [|i]; cbn in Hi; [by simplify_eq|].
      eapply (serve_local_window env client ty id rest _ 1) in Hi; [|done..|].
      - rewrite Hlimit in Hi.
        by replace (Z.of_nat (S i)) with (1 + Z.of_nat i) by lia.
      - eapply Forall_impl; [exact Hall|]. intros rc (? & ? & ?).
        split; [done|]. destruct Ht0 as [-> | ->]; done. }
    split; [done|].
    destruct (count_quota ress 0 10) as [Hfw Hsum].
    { intros i res Hi. rewrite Z.add_0_l. by apply Hq. }
    assert (length ress = 15%nat) as Hl.
    { subst ress. rewrite serve_length. cbn. by rewrite Hlen. }
    rewrite Hl in Hfw, Hsum. lia.
Qed.

Lemma redis_failure_falls_back_witness :
  let reqs := replicate 15 (forwardedFor "1.2.3.4", instant 5000) in
  let fallen :=
    (checkRedisRateLimit upstashEnv droppingRedis (instant 5000)
       "1.2.3.4" processing (redisWorld ())).2 in
  useRedis (initializeRedis upstashEnv droppingRedis (freshWorld ())) = true
  ∧ useRedis fallen = false
  ∧ useRedis (serve upstashEnv droppingRedis processing reqs fallen).2 = false
  ∧ (countWhere isForwarded
       (serve upstashEnv droppingRedis processing reqs (freshWorld ())).1 = 10%nat
     ∧ countWhere is429
         (serve upstashEnv droppingRedis processing reqs (freshWorld ())).1 = 5%nat)
  ∧ (countWhere isForwarded
       (serve upstashEnv unreachableRedis processing reqs (freshWorld ())).1 = 10%nat
     ∧ countWhere is429
         (serve upstashEnv unreachableRedis processing reqs (freshWorld ())).1 = 5%nat).
Proof.
  pose proof (redis_failure_falls_back upstashEnv droppingRedis)
    as (Hcaught & _ & _ & Hstays & Hburst).
  pose proof (redis_failure_falls_back upstashEnv unreachableRedis)
    as (_ & _ & _ & _ & Hburst').
  split; [vm_compute; reflexivity|].
  split.
  { destruct (Hcaught (instant 5000) "1.2.3.4"%string processing (redisWorld ()))
      as (w' & Hcheck & _ & Hflag).
    - eexists. reflexivity.
    - vm_compute; reflexivity.
    - rewrite Hcheck. exact Hflag. }
  split.
  { refine (proj1 (Hstays processing _ _ _ _)); vm_compute; reflexivity. }
  split.
  - refine (proj2 (Hburst processing "1.2.3.4"%string (forwardedFor "1.2.3.4")
             (instant 5000)
             (replicate 14 (forwardedFor "1.2.3.4", instant 5000)) (freshWorld ())
             _ _ _ _ _ _ _)).
    + intros t k r. reflexivity.
    + vm_compute; reflexivity.
    + intros Hup. discriminate Hup.
    + reflexivity.
    + reflexivity.
    + reflexivity.
    + each_request ltac:(split; [exact eq_refl|split; vm_compute; discriminate]).
  - refine (proj2 (Hburst' processing "1.2.3.4"%string (forwardedFor "1.2.3.4")
             (instant 5000)
             (replicate 14 (forwardedFor "1.2.3.4", instant 5000)) (freshWorld ())
             _ _ _ _ _ _ _)).
    + intros t k r. reflexivity.
    + vm_compute; reflexivity.
    + intros Hup. discriminate Hup.
    + reflexivity.
    + reflexivity.
    + reflexivity.
    + each_request ltac:(split; [exact eq_refl|split; vm_compute; discriminate]).
Defined.

(** ** Isolation between keys *)

Section Isolation.

Context (env : Env).
Implicit Types (id : string) (ty : LimiterType) (clk : Clock).

(** The in-memory check reads and writes the entry of its key only. *)
Lemma checkInMemory_local now id ty (m1 m2 : gmap string Limiter.t) :
  m1 !! limiterKeyOf ty id = m2 !! limiterKeyOf ty id →
  (checkInMemoryRateLimit env now id ty m1).1
  = (checkInMemoryRateLimit env now id ty m2).1
  ∧ (checkInMemoryRateLimit env now id ty m1).2 !! limiterKeyOf ty id
    = (checkInMemoryRateLimit env now id ty m2).2 !! limiterKeyOf ty id.
Proof.
  intros Heq. unfold checkInMemoryRateLimit. rewrite <- Heq.
  destruct (m1 !! limiterKeyOf ty id) as [l|] eqn:E; cbn;
    [destruct (_ <? _); [|destruct (_ <=? _)]|]; cbn;
    rewrite ?lookup_insert_eq; split; congruence.
Qed.

Lemma memoryTrace_projection (k : string) calls :
  ∀ m1 m2 : gmap string Limiter.t,
    m1 !! k = m2 !! k →
    filter (λ p, p.1 = k) (memoryTrace env calls m1)
    = memoryTrace env (filter (λ c, memoryKey c = k) calls) m2.
Proof.
  induction calls as [|[[now ty] id] rest IH]; intros m1 m2 Hk; [done|].
  cbn [memoryTrace].
  destruct (decide (limiterKeyOf ty id = k)) as [Heq|Hne].
  - rewrite filter_cons_True by done.
    rewrite (filter_cons_True (λ c, memoryKey c = k)) by done.
    cbn [memoryTrace]. subst k.
    destruct (checkInMemory_local now id ty m1 m2 Hk) as [-> Hnext].
    f_equal. by apply IH.
  - rewrite filter_cons_False by done.
    rewrite (filter_cons_False (λ c, memoryKey c = k)) by done.
    apply IH. by rewrite checkInMemory_frame.
Qed.

(** Against the mock store the Redis check never falls back: it applies
    [mockIncrement] to the entry of its key and decides on the value. *)
Lemma checkRedis_mock_step clk id ty (w : World (gmap string RedisEntry.t)) :
  is_Some (redisClient w) →
  let key := limiterKeyOf ty (sanitizeIP id) in
  let step := mockIncrement clk (redisStore w !! key) in
  checkRedisRateLimit env createMockRedis clk id ty w
  = (Normal (redisDecision env ty clk step.1),
     setStore (<[key := step.2]> (redisStore w)) w).
Proof.
  intros [c Hc] key step. subst step. unfold checkRedisRateLimit. rewrite Hc.
  fold key. cbn. unfold MockRedisClient.incr, mockIncrement.
  destruct (redisStore w !! key) as [e|] eqn:He.
  - destruct (MockRedisClient.expired (t_incr clk) e) eqn:Hex.
    + cbn. unfold MockRedisClient.expire. rewrite lookup_insert_eq. cbn.
      rewrite insert_insert_eq, insert_delete_eq.
      unfold redisDecision. by destruct (_ <? _).
    + destruct (RedisEntry.value e + 1 =? 1) eqn:E1.
      * unfold MockRedisClient.expire. rewrite lookup_insert_eq. cbn.
        rewrite insert_insert_eq. apply Z.eqb_eq in E1. rewrite E1.
        unfold redisDecision. by destruct (_ <? _).
      * unfold redisDecision. by destruct (_ <? _).
  - cbn. unfold MockRedisClient.expire. rewrite lookup_insert_eq. cbn.
    rewrite insert_insert_eq.
    unfold redisDecision. by destruct (_ <? _).
Qed.

Lemma redisTrace_projection (k : string) calls :
  ∀ w1 w2 : World (gmap string RedisEntry.t),
    is_Some (redisClient w1) → is_Some (redisClient w2) →
    redisStore w1 !! k = redisStore w2 !! k →
    filter (λ p, p.1 = k) (redisTrace env createMockRedis calls w1)
    = redisTrace env createMockRedis (filter (λ c, redisKey c = k) calls) w2.
Proof.
  induction calls as [|[[clk ty] id] rest IH]; intros w1 w2 H1 H2 Hk; [done|].
  cbn [redisTrace].
  rewrite (checkRedis_mock_step clk id ty w1 H1).
  destruct (decide (limiterKeyOf ty (sanitizeIP id) = k)) as [Heq|Hne].
  - rewrite filter_cons_True by done.
    rewrite (filter_cons_True (λ c, redisKey c = k)) by done.
    cbn [redisTrace]. rewrite (checkRedis_mock_step clk id ty w2 H2).
    subst k. cbn [fst snd]. rewrite Hk. f_equal.
    apply IH; [done..|]. cbn. by rewrite !lookup_insert_eq.
  - rewrite filter_cons_False by done.
    rewrite (filter_cons_False (λ c, redisKey c = k)) by done.
    apply IH; [done..|]. cbn. by rewrite lookup_insert_ne.
Qed.

End Isolation.

(** C3, as stated, fails on the Redis backend: the identities "1.2.3.4" and
    "1-2-3-4" are distinct, yet a request of the first lowers what is left
    for the second from 9 to 8, and ten requests of the first have the
    second one rejected. *)
Lemma sanitized_identities_share_a_counter :
  let w := redisWorld (∅ : gmap string RedisEntry.t) in
  let clk := instant 1000 in
  let decision (calls : list (Clock * LimiterType * string)) :=
    match last (redisTrace ∅ createMockRedis calls w) with
    | Some (_, Normal r) => Some (Result.allowed r, Result.remaining r)
    | _ => None
    end in
  "1.2.3.4"%string ≠ "1-2-3-4"%string
  ∧ decision [(clk, processing, "1-2-3-4"%string)] = Some (true, 9)
  ∧ decision [(clk, processing, "1.2.3.4"%string);
              (clk, processing, "1-2-3-4"%string)] = Some (true, 8)
  ∧ decision (replicate 10 (clk, processing, "1.2.3.4"%string)
              ++ [(clk, processing, "1-2-3-4"%string)]) = Some (false, 0).
Proof. split; [discriminate|]. repeat split; vm_compute; reflexivity. Qed.

(** C3, amended. A check changes no entry but that of its key, on either
    backend, and under interleaved traffic the decisions taken for a key
    are those that the requests of that key alone would get.  On the
    in-memory backend distinct (namespace, identity) pairs have distinct
    keys; on the Redis backend the key is made of the namespace and the
    sanitized identity, so two pairs have distinct keys when their
    namespaces differ or their sanitized identities differ. *)
Theorem isolation_between_keys (env : Env) :
  (∀ now id ty (m : gmap string Limiter.t) k,
     k ≠ limiterKeyOf ty id →
     (checkInMemoryRateLimit env now id ty m).2 !! k = m !! k)
  ∧ (∀ clk id ty (w : World (gmap string RedisEntry.t)) k,
       is_Some (redisClient w) →
       k ≠ limiterKeyOf ty (sanitizeIP id) →
       let w' := (checkRedisRateLimit env createMockRedis clk id ty w).2 in
       redisStore w' !! k = redisStore w !! k
       ∧ inMemoryRateLimitMap w' = inMemoryRateLimitMap w)
  ∧ (∀ k calls (m : gmap string Limiter.t),
       filter (λ p, p.1 = k) (memoryTrace env calls m)
       = memoryTrace env (filter (λ c, memoryKey c = k) calls) m)
  ∧ (∀ k calls (w : World (gmap string RedisEntry.t)),
       is_Some (redisClient w) →
       filter (λ p, p.1 = k) (redisTrace env createMockRedis calls w)
       = redisTrace env createMockRedis (filter (λ c, redisKey c = k) calls) w)
  ∧ (∀ ty1 id1 ty2 id2,
       (ty1, id1) ≠ (ty2, id2) → limiterKeyOf ty1 id1 ≠ limiterKeyOf ty2 id2)
  ∧ (∀ ty1 id1 ty2 id2,
       ty1 ≠ ty2 ∨ sanitizeIP id1 ≠ sanitizeIP id2 →
       limiterKeyOf ty1 (sanitizeIP id1) ≠ limiterKeyOf ty2 (sanitizeIP id2)).
Proof.
  repeat split.
  - intros. by apply checkInMemory_frame.
  - rewrite (checkRedis_mock_step env clk id ty w) by done. cbn.
    by rewrite lookup_insert_ne.
  - by rewrite (checkRedis_mock_step env clk id ty w).
  - intros. by apply memoryTrace_projection.
  - intros. by apply redisTrace_projection.
  - intros. by apply limiterKeyOf_ne.
  - intros ty1 id1 ty2 id2 Hne Heq. apply limiterKeyOf_inj in Heq as [? ?].
    destruct Hne; contradiction.
Qed.

Lemma isolation_between_keys_witness :
  let traffic :=
    [(1000, processing, "1.2.3.4"); (1001, health, "1.2.3.4");
     (1002, processing, "5.6.7.8"); (1003, processing, "1.2.3.4")]%string in
  filter (λ p, p.1 = limiterKeyOf processing "1.2.3.4") (memoryTrace ∅ traffic ∅)
  = memoryTrace ∅ [(1000, processing, "1.2.3.4"); (1003, processing, "1.2.3.4")]%string ∅
  ∧ limiterKeyOf processing "1.2.3.4" ≠ limiterKeyOf health "1.2.3.4"
  ∧ limiterKeyOf processing (sanitizeIP "1.2.3.4")
    ≠ limiterKeyOf processing (sanitizeIP "5.6.7.8").
Proof.
  pose proof (isolation_between_keys ∅) as (_ & _ & Htrace & _ & Hmem & Hredis).
  split; [|split].
  - exact (Htrace (limiterKeyOf processing "1.2.3.4") _ ∅).
  - apply Hmem. discriminate.
  - apply Hredis. right. discriminate.
Defined.

(** ** Failing open *)

(** When the [try] block throws, it has neither answered nor called
    [next]. *)
Lemma limiterBody_throw_untouched (env : Env) {R} (client : RedisClient R)
    ty req clk (w : World R) msg res w' :
  limiterBody env client ty req clk Res.fresh w = (Throw msg, res, w') →
  Res.nextCalls res = 0%nat ∧ Res.statusCode res = None ∧ Res.body res = None.
Proof.
  unfold limiterBody. intros H.
  destruct (extractClientIP req) as [id|e]; [|by simplify_eq].
  destruct (if (useRedis w && _)%bool then _ else _) as [[result|e] w1];
    [|by simplify_eq].
  destruct (negb _); [destruct (Result.retryAfter _)|]; by simplify_eq.
Qed.

(** C4. Whatever throws inside the [try] block of the middleware, the
    middleware itself completes normally, calls [next] once and sends
    neither a 429 nor any other answer of its own; this is in particular so
    when the extraction of the identity throws. *)
Theorem middleware_fails_open (env : Env) {R} (client : RedisClient R)
    (ty : LimiterType) (req : Request.t) (clk : Clock) (w : World R) :
  let w1 := if rateLimiterInitialized w then w else initializeRedis env client w in
  (∀ msg res w',
     limiterBody env client ty req clk Res.fresh w1 = (Throw msg, res, w') →
     ∃ res',
       createRateLimiter env client ty req clk w = (Normal (), res', w')
       ∧ isForwarded res' = true ∧ is429 res' = false
       ∧ Res.statusCode res' = None ∧ Res.body res' = None)
  ∧ (∀ msg,
       extractClientIP req = Throw msg →
       ∃ res',
         createRateLimiter env client ty req clk w = (Normal (), res', w1)
         ∧ isForwarded res' = true ∧ is429 res' = false
         ∧ Res.statusCode res' = None ∧ Res.body res' = None).
Proof.
  intros w1.
  assert (∀ msg res w',
     limiterBody env client ty req clk Res.fresh w1 = (Throw msg, res, w') →
     ∃ res',
       createRateLimiter env client ty req clk w = (Normal (), res', w')
       ∧ isForwarded res' = true ∧ is429 res' = false
       ∧ Res.statusCode res' = None ∧ Res.body res' = None) as Hopen.
  { intros msg res w' Hbody.
    destruct (limiterBody_throw_untouched env client ty req clk w1 msg res w' Hbody)
      as (Hnext & Hstatus & Hnobody).
    exists (limiterCatch env ty res).
    assert (isForwarded (limiterCatch env ty res) = true) as Hfwd.
    { apply bool_decide_eq_true. cbn. by rewrite Hnext, Hstatus, Hnobody. }
    split; [|split; [done|split; [by apply forwarded_not_429|by cbn]]].
    unfold createRateLimiter, limiterTryCatch. fold w1. by rewrite Hbody. }
  split; [exact Hopen|].
  intros msg Hthrow. apply (Hopen msg Res.fresh).
  unfold limiterBody. by rewrite Hthrow.
Qed.

Lemma middleware_fails_open_witness :
  let req := Request.mk None (Some "10.0.0.7"%string) None in
  extractClientIP req
  = Throw "Cannot read properties of undefined (reading 'x-forwarded-for')"
  ∧ ∃ res' w',
      createRateLimiter ∅ createMockRedis processing req (instant 1000)
        (freshWorld ∅)
      = (Normal (), res', w')
      ∧ isForwarded res' = true ∧ is429 res' = false.
Proof.
  split; [reflexivity|].
  destruct (middleware_fails_open ∅ createMockRedis processing
              (Request.mk None (Some "10.0.0.7"%string) None) (instant 1000)
              (freshWorld ∅)) as [_ Hextract].
  destruct (Hextract _ eq_refl) as (res' & Hmw & Hfwd & Hno429 & _).
  eauto.
Defined.

(** ** The retry hint *)

Lemma ceilDiv_nonneg x : 0 ≤ x → 0 ≤ ceilDiv x 1000.
Proof. unfold ceilDiv. intros. Z.div_mod_to_equations. lia. Qed.

Lemma ceilDiv_pos x : 0 < x → 1 ≤ ceilDiv x 1000.
Proof. unfold ceilDiv. intros. Z.div_mod_to_equations. lia. Qed.

Lemma minute_hint_pos t : 1 ≤ 60 - floorDiv (remainder t 60000) 1000.
Proof.
  unfold floorDiv, remainder. Z.to_euclidean_division_equations. lia.
Qed.

(** A denial of the in-memory check comes from a running window that is
    full. *)
Lemma checkInMemory_denied env now id ty (m : gmap string Limiter.t) :
  Result.allowed (checkInMemoryRateLimit env now id ty m).1 = false →
  ∃ l, m !! limiterKeyOf ty id = Some l
       ∧ now ≤ Limiter.resetTime l
       ∧ maxRequestsFor env ty ≤ Limiter.count l
       ∧ (checkInMemoryRateLimit env now id ty m).1
         = Result.mk false 0 (Limiter.resetTime l)
             (Some (ceilDiv (Limiter.resetTime l - now) 1000)).
Proof.
  unfold checkInMemoryRateLimit.
  destruct (m !! limiterKeyOf ty id) as [l|]; [|done].
  destruct (_ <? _) eqn:E1; [done|]. destruct (_ <=? _) eqn:E2; [|done].
  intros _. exists l. apply Z.ltb_ge in E1. apply Z.leb_le in E2. done.
Qed.

(** C5 fails on the code, by two slips.  On the in-memory backend a request
    that arrives at the very millisecond of the reset time of a full window
    is denied with a hint of 0 seconds, where the repository's test of the
    429 expects a Retry-After above 0.  On the Redis backend the hint of
    the eleventh request is 58 seconds, [60 - floor((now % 60000) / 1000)],
    the formula of the earlier window of 60 seconds, while the reset time
    of the same result lies 3600 seconds ahead: the in-memory path, and the
    README's [Retry-After: 3600], give 3600 there. *)
Lemma retry_hint_counterexample :
  let full : gmap string Limiter.t :=
    {[ limiterKeyOf processing "1.2.3.4" := Limiter.mk 10 5000 ]} in
  let clk := instant 1700000042000 in
  let eleventh :=
    match last (redisTrace ∅ createMockRedis
                  (replicate 11 (clk, processing, "1.2.3.4"%string))
                  (redisWorld ∅)) with
    | Some (_, Normal r) => Some r
    | _ => None
    end in
  (checkInMemoryRateLimit ∅ 5000 "1.2.3.4" processing full).1
  = Result.mk false 0 5000 (Some 0)
  ∧ eleventh = Some (Result.mk false 0 (1700000042000 + 3600000) (Some 58))
  ∧ ceilDiv (1700000042000 + 3600000 - 1700000042000) 1000 = 3600.
Proof. repeat split; vm_compute; reflexivity. Qed.

(** The hint as the code computes and sends it.  The in-memory backend
    computes [ceil((resetTime − now) / 1000)], which is never negative and
    is at least 1 as soon as [now] is before the reset time; the Redis path
    computes a number of seconds of the running minute, at least 1.  On
    either backend the middleware sends the hint of the decision as the
    Retry-After header and as the [retryAfter] field of the 429 body. *)
Theorem retry_hint_of_denials (env : Env) {R} (client : RedisClient R)
    (ty : LimiterType) (id : string) (req : Request.t) (clk : Clock) (w : World R) :
  extractClientIP req = Normal id →
  (∀ now (m : gmap string Limiter.t),
     Result.allowed (checkInMemoryRateLimit env now id ty m).1 = false →
     ∃ l, m !! limiterKeyOf ty id = Some l
          ∧ Result.resetTime (checkInMemoryRateLimit env now id ty m).1
            = Limiter.resetTime l
          ∧ Result.retryAfter (checkInMemoryRateLimit env now id ty m).1
            = Some (ceilDiv (Limiter.resetTime l - now) 1000)
          ∧ 0 ≤ ceilDiv (Limiter.resetTime l - now) 1000
          ∧ (now < Limiter.resetTime l →
             1 ≤ ceilDiv (Limiter.resetTime l - now) 1000))
  ∧ (∀ result w',
       is_Some (redisClient w) →
       redisThrows client clk (limiterKeyOf ty (sanitizeIP id)) w = false →
       checkRedisRateLimit env client clk id ty w = (Normal result, w') →
       Result.allowed result = false →
       ∃ hint, Result.retryAfter result = Some hint ∧ 1 ≤ hint)
  ∧ (localBackend env w ∨ redisBackend w →
     ∀ c res w',
       createRateLimiter env client ty req clk w = (c, res, w') →
       is429 res = true →
       ∃ result hint,
         (if useRedis w
          then (checkRedisRateLimit env client clk id ty w).1 = Normal result
          else (checkInMemoryRateLimit env (t_start clk) id ty
                  (inMemoryRateLimitMap w)).1 = result)
         ∧ Result.allowed result = false
         ∧ Result.retryAfter result = Some hint
         ∧ Res.headers res !! "Retry-After"%string = Some hint
         ∧ Res.body res
           = Some (TooManyRequests "Too many requests. Please try again later."
                     hint)).
Proof.
  intros Hid. split; [|split].
  - intros now m Hdenied.
    destruct (checkInMemory_denied env now id ty m Hdenied)
      as (l & Hl & Hle & _ & Hres).
    exists l. rewrite Hres. cbn. repeat split; [done|..].
    + apply ceilDiv_nonneg. lia.
    + intros. apply ceilDiv_pos. lia.
  - intros result w' [c Hc] Hok Hcheck Hdenied.
    unfold checkRedisRateLimit, redisThrows in *. rewrite Hc in Hcheck.
    destruct (incr _ _ _ _) as [[count|msg] r]; [|done].
    destruct (count =? 1).
    + destruct (expire _ _ _ _ _) as [[b|msg] r']; [|done].
      destruct (_ <? _); simplify_eq.
      eexists. split; [done|]. apply minute_hint_pos.
    + destruct (_ <? _); simplify_eq.
      eexists. split; [done|]. apply minute_hint_pos.
  - intros Hmode c res w' Hmw H429.
    assert (∃ result,
               (if useRedis w
                then (checkRedisRateLimit env client clk id ty w).1 = Normal result
                else (checkInMemoryRateLimit env (t_start clk) id ty
                        (inMemoryRateLimitMap w)).1 = result)
               ∧ decisionSent env ty result res) as (result & Hresult & Hsent).
    { destruct Hmode as [Hloc|Hred].
      - destruct (createRateLimiter_local env client ty req clk w id Hloc Hid)
          as (res0 & Hmw0 & Hsent).
        destruct Hloc as [-> _]. rewrite Hmw0 in Hmw. simplify_eq. eauto.
      - destruct (createRateLimiter_redis env client ty req clk w id Hred Hid)
          as (result & res0 & Hcheck & Hmw0 & Hsent).
        destruct Hred as (_ & -> & _). rewrite Hmw0 in Hmw. simplify_eq.
        exists result. by rewrite Hcheck. }
    destruct Hsent as (_ & _ & _ & Hsent).
    destruct (Result.allowed result) eqn:Hallowed.
    + apply forwarded_not_429 in Hsent. congruence.
    + destruct Hsent as (_ & hint & ? & ? & ?). by exists result, hint.
Qed.

Lemma retry_hint_of_denials_witness :
  let full : gmap string Limiter.t :=
    {[ limiterKeyOf processing "1.2.3.4" := Limiter.mk 10 5000 ]} in
  let w := mkWorld full None false true (∅ : gmap string RedisEntry.t) in
  let out :=
    createRateLimiter ∅ createMockRedis processing (forwardedFor "1.2.3.4")
      (instant 4001) w in
  Res.statusCode out.1.2 = Some 429
  ∧ Res.headers out.1.2 !! "Retry-After"%string = Some 1
  ∧ Res.body out.1.2
    = Some (TooManyRequests "Too many requests. Please try again later." 1).
Proof.
  intros full w out.
  pose proof (retry_hint_of_denials ∅ createMockRedis processing "1.2.3.4"
                (forwardedFor "1.2.3.4") (instant 4001) w eq_refl)
    as (Hmem & _ & Hsend).
  assert (localBackend ∅ w) as Hloc.
  { split; [reflexivity|]. intros H. discriminate H. }
  assert (is429 out.1.2 = true) as H429 by (vm_compute; reflexivity).
  destruct (Hsend (or_introl Hloc) out.1.1 out.1.2 out.2) as
    (result & hint & Hresult & Hdenied & Hhint & Hheader & Hbody);
    [change (out = (out.1.1, out.1.2, out.2)); clearbody out;
     by destruct out as [[? ?] ?]|exact H429|].
  cbn in Hresult. subst result.
  destruct (Hmem 4001 full Hdenied) as (l & Hl & _ & Hra & _ & Hpos).
  assert (hint = 1) as ->.
  { rewrite Hhint in Hra. vm_compute in Hl. injection Hl as <-.
    vm_compute in Hra. by injection Hra. }
  split; [|done]. vm_compute. reflexivity.
Defined.

(** ** The identity of the client *)

Lemma split_leftmost s : ∃ rest, split "," s = leftmostEntry s :: rest.
Proof.
  induction s as [|c r [rest IH]]; cbn; [by eexists|].
  destruct (Ascii.eqb c ","); [by eexists|]. rewrite IH. by eexists.
Qed.

Lemma trimStart_visible s :
  hasVisible s = true →
  ∃ c r, trimStart s = String c r ∧ isWhiteSpace c = false.
Proof.
  induction s as [|c r IH]; cbn; [done|].
  destruct (isWhiteSpace c) eqn:E; cbn; [done|]. intros _. by exists c, r.
Qed.

Lemma trim_visible s : hasVisible s = true → trim s ≠ EmptyString.
Proof.
  intros (c & r & Hs & Hc)%trimStart_visible. unfold trim. rewrite Hs. cbn.
  by rewrite Hc.
Qed.

Lemma truthy_Some v : truthy v = true → ∃ s, v = Some s ∧ s ≠ EmptyString.
Proof. destruct v as [[|c r]|]; cbn; [done| |done]. intros _. by eexists. Qed.

Lemma peerAddress_nonempty req : peerAddress req ≠ EmptyString.
Proof.
  unfold peerAddress.
  destruct (truthy (Request.ip req)) eqn:E1.
  - by apply truthy_Some in E1 as (s & -> & ?).
  - destruct (truthy (mjoin (Request.connection req))) eqn:E2; [|done].
    by apply truthy_Some in E2 as (s & -> & ?).
Qed.

(** C6, as stated, fails: a forwarding header whose leftmost entry is blank
    gives the empty identity, and so does a header of white space; and a
    request object without header table makes the function throw. *)
Lemma extractClientIP_counterexample :
  extractClientIP (forwardedFor ", 10.0.0.1") = Normal EmptyString
  ∧ extractClientIP (forwardedFor " ") = Normal EmptyString
  ∧ isNormal (extractClientIP (Request.mk None (Some "10.0.0.7"%string) None))
    = false.
Proof. repeat split; vm_compute; reflexivity. Qed.

(** C6, amended. For a request that has a header table: when the
    [x-forwarded-for] header is a non-empty string the identity is its
    leftmost comma-separated entry, trimmed, and it is non-empty as soon as
    that entry has a character that is not white space; when the header is
    absent or empty the identity is [req.ip] if that is a non-empty string,
    else the remote address of the connection if that is one, else
    "unknown", and it is never empty; and the function does not throw
    unless the header is an array. *)
Theorem extractClientIP_resolution (req : Request.t)
    (hs : gmap string HeaderValue) :
  Request.headers req = Some hs →
  (∀ s, hs !! "x-forwarded-for"%string = Some (HString s) → s ≠ EmptyString →
     extractClientIP req = Normal (trim (leftmostEntry s))
     ∧ (hasVisible (leftmostEntry s) = true → trim (leftmostEntry s) ≠ EmptyString))
  ∧ (hs !! "x-forwarded-for"%string = None
     ∨ hs !! "x-forwarded-for"%string = Some (HString EmptyString) →
     ∃ id, extractClientIP req = Normal id ∧ id ≠ EmptyString
       ∧ (∀ a, Request.ip req = Some a → a ≠ EmptyString → id = a)
       ∧ (truthy (Request.ip req) = false →
          ∀ a, Request.connection req = Some (Some a) → a ≠ EmptyString → id = a)
       ∧ (truthy (Request.ip req) = false →
          truthy (mjoin (Request.connection req)) = false →
          id = "unknown"%string))
  ∧ ((∀ l, hs !! "x-forwarded-for"%string ≠ Some (HArray l)) →
     ∃ id, extractClientIP req = Normal id).
Proof.
  intros Hhs. unfold extractClientIP. rewrite Hhs. split; [|split].
  - intros s -> Hs. destruct s as [|c r]; [done|]. cbn [isEmpty].
    destruct (split_leftmost (String c r)) as [rest ->].
    split; [done|]. apply trim_visible.
  - intros Habsent. exists (peerAddress req).
    split; [by destruct Habsent as [-> | ->]|].
    split; [apply peerAddress_nonempty|].
    unfold peerAddress. split; [|split].
    + intros a -> Ha. by destruct a.
    + intros -> a -> Ha. by destruct a.
    + by intros -> ->.
  - intros Hstr.
    destruct (hs !! "x-forwarded-for"%string) as [[s|l]|] eqn:E.
    + destruct (isEmpty s); [by eexists|].
      destruct (split_leftmost s) as [rest ->]. by eexists.
    + by destruct (Hstr l).
    + by eexists.
Qed.

Lemma extractClientIP_resolution_witness :
  extractClientIP (forwardedFor "9.9.9.9, 10.0.0.1") = Normal "9.9.9.9"%string
  ∧ extractClientIP (fromPeer "10.0.0.7") = Normal "10.0.0.7"%string
  ∧ extractClientIP (Request.mk (Some ∅) None None) = Normal "unknown"%string.
Proof.
  split; [|split].
  - destruct (extractClientIP_resolution (forwardedFor "9.9.9.9, 10.0.0.1")
                {[ "x-forwarded-for"%string := HString "9.9.9.9, 10.0.0.1" ]}
                eq_refl) as (Hleft & _ & _).
    destruct (Hleft "9.9.9.9, 10.0.0.1"%string eq_refl) as [-> _]; [done|].
    vm_compute. reflexivity.
  - destruct (extractClientIP_resolution (fromPeer "10.0.0.7") ∅ eq_refl)
      as (_ & Hpeer & _).
    destruct (Hpeer (or_introl eq_refl)) as (id & -> & _ & Hip & _).
    by rewrite (Hip "10.0.0.7"%string eq_refl).
  - destruct (extractClientIP_resolution (Request.mk (Some ∅) None None) ∅ eq_refl)
      as (_ & Hpeer & _).
    destruct (Hpeer (or_introl eq_refl)) as (id & -> & _ & _ & _ & Hunknown).
    by rewrite (Hunknown eq_refl eq_refl).
Defined.

(** ** A new window *)

(** C7, as stated, fails at the reset time itself: an entry that is full is
    not replaced by a request that arrives at its reset time; the request
    is denied and the entry stays. *)
Lemma reset_time_itself_counterexample :
  let full : gmap string Limiter.t :=
    {[ limiterKeyOf processing "1.2.3.4" := Limiter.mk 10 5000 ]} in
  checkInMemoryRateLimit ∅ 5000 "1.2.3.4" processing full
  = (Result.mk false 0 5000 (Some 0), full).
Proof. vm_compute. reflexivity. Qed.

(** C7, amended. A request observed after the reset time of an entry
    replaces the entry by [{count: 1, resetTime: now + window}] and is
    allowed with [limit - 1] remaining; and from such a request on, the
    identity has its full quota again: of the requests that arrive no later
    than the new reset time, the first [limit] are forwarded and the
    further ones rejected. *)
Theorem expired_window_restarts (env : Env) (ty : LimiterType) (id : string)
    (l : Limiter.t) (now : Z) :
  Limiter.resetTime l < now →
  (∀ m : gmap string Limiter.t,
     m !! limiterKeyOf ty id = Some l →
     checkInMemoryRateLimit env now id ty m
     = (Result.mk true (maxRequestsFor env ty - 1) (now + RATE_LIMIT_WINDOW) None,
        <[limiterKeyOf ty id := Limiter.mk 1 (now + RATE_LIMIT_WINDOW)]> m))
  ∧ (∀ {R} (client : RedisClient R) (w : World R) req clk rest,
       localBackend env w →
       inMemoryRateLimitMap w !! limiterKeyOf ty id = Some l →
       t_start clk = now →
       1 ≤ maxRequestsFor env ty →
       Forall (λ rc, extractClientIP rc.1 = Normal id
                     ∧ t_start rc.2 ≤ now + RATE_LIMIT_WINDOW)
         ((req, clk) :: rest) →
       quotaEnforced (maxRequestsFor env ty)
         (serve env client ty ((req, clk) :: rest) w).1).
Proof.
  intros Hpast. split.
  - intros m Hl. by apply checkInMemory_expired with l.
  - intros R client w req clk rest Hloc Hl Hnow Hlimit Hall.
    apply Forall_cons in Hall as [[Hid _] Hall]. cbn in Hid.
    intros i res Hi.
    eapply (serve_local_opening env client ty id req clk rest w) in Hi;
      [|done|by rewrite Hl, Hnow|done|by rewrite Hnow].
    destruct i as [|i]; cbn in Hi.
    + by rewrite bool_decide_eq_true_2 by lia.
    + by rewrite bool_decide_eq_true_2 in Hi by lia.
Qed.

Lemma expired_window_restarts_witness :
  let full : gmap string Limiter.t :=
    {[ limiterKeyOf processing "1.2.3.4" := Limiter.mk 10 5000 ]} in
  (checkInMemoryRateLimit ∅ 5001 "1.2.3.4" processing full).1
  = Result.mk true (maxRequestsFor ∅ processing - 1) (5001 + RATE_LIMIT_WINDOW) None
  ∧ quotaEnforced (maxRequestsFor ∅ processing)
      (serve ∅ createMockRedis processing
         (replicate 12 (forwardedFor "1.2.3.4", instant 5001))
         (mkWorld full None false true ∅)).1.
Proof.
  intros full.
  destruct (expired_window_restarts ∅ processing "1.2.3.4" (Limiter.mk 10 5000) 5001)
    as [Hreplace Hquota]; [vm_compute; reflexivity|].
  split.
  - rewrite (Hreplace full); [reflexivity|]. vm_compute. reflexivity.
  - apply (Hquota _ createMockRedis (mkWorld full None false true ∅)
             (forwardedFor "1.2.3.4") (instant 5001)
             (replicate 11 (forwardedFor "1.2.3.4", instant 5001))).
    + split; [reflexivity|]. intros H. discriminate H.
    + vm_compute. reflexivity.
    + reflexivity.
    + vm_compute. discriminate.
    + apply Forall_cons_2; [split; [exact eq_refl|vm_compute; discriminate]|].
      each_request ltac:(split; [exact eq_refl|vm_compute; discriminate]).
Defined.

(** ** Configured limits *)

(** What the fallback [|| default] does catch: a value without leading
    number, and zero. *)
Lemma limit_defaults (env : Env) :
  (parseInt (env !! "RATE_LIMIT_PER_HOUR"%string) = None
   ∨ parseInt (env !! "RATE_LIMIT_PER_HOUR"%string) = Some 0 →
   PROCESSING_RATE_LIMIT_MAX_REQUESTS env = 10)
  ∧ (parseInt (env !! "HEALTH_CHECK_RATE_LIMIT_PER_HOUR"%string) = None
     ∨ parseInt (env !! "HEALTH_CHECK_RATE_LIMIT_PER_HOUR"%string) = Some 0 →
     HEALTH_CHECK_RATE_LIMIT_MAX_REQUESTS env = 100).
Proof.
  unfold PROCESSING_RATE_LIMIT_MAX_REQUESTS, HEALTH_CHECK_RATE_LIMIT_MAX_REQUESTS.
  split; intros [-> | ->]; reflexivity.
Qed.

(** C8 does not hold of the code: a negative configured value is parsed and
    kept, for either limiter, while a non-numeric one and zero give the
    default.  With the limit -5 the in-memory backend lets the first
    request of a window through and rejects the second. *)
Theorem negative_limit_is_kept :
  let env : Env :=
    {[ "RATE_LIMIT_PER_HOUR"%string := "-5"%string;
       "HEALTH_CHECK_RATE_LIMIT_PER_HOUR"%string := "-1"%string ]} in
  PROCESSING_RATE_LIMIT_MAX_REQUESTS env = -5
  ∧ HEALTH_CHECK_RATE_LIMIT_MAX_REQUESTS env = -1
  ∧ PROCESSING_RATE_LIMIT_MAX_REQUESTS {[ "RATE_LIMIT_PER_HOUR"%string := "abc"%string ]}
    = 10
  ∧ PROCESSING_RATE_LIMIT_MAX_REQUESTS {[ "RATE_LIMIT_PER_HOUR"%string := "0"%string ]}
    = 10
  ∧ isForwarded <$> (serve env createMockRedis processing
                       (replicate 2 (forwardedFor "1.2.3.4", instant 1000))
                       (freshWorld ∅)).1
    = [true; false].
Proof. repeat split; vm_compute; reflexivity. Qed.

(** ** The status function *)

(** C10. [getRateLimitStatus] never returns a status that carries the
    limit: when the Redis client is in use it returns an object with an
    [error] field only, and otherwise the call throws the reference error
    of the undeclared identifier [RATE_LIMIT_MAX_REQUESTS]. *)
Theorem getRateLimitStatus_has_no_limit (env : Env) {R} (client : RedisClient R)
    (now : Z) (clientIP : string) (w : World R) :
  moduleConstant env "RATE_LIMIT_MAX_REQUESTS"
  = Throw "RATE_LIMIT_MAX_REQUESTS is not defined"
  ∧ (if (useRedis w && bool_decide (is_Some (redisClient w)))%bool
     then ∃ message w',
            getRateLimitStatus env client now clientIP w
            = (Normal (ErrorStatus message), w')
     else getRateLimitStatus env client now clientIP w
          = (Throw "RATE_LIMIT_MAX_REQUESTS is not defined", w))
  ∧ (∀ ip count limit,
       (getRateLimitStatus env client now clientIP w).1
       ≠ Normal (RedisStatus ip count limit))
  ∧ (∀ ip count limit resetTime,
       (getRateLimitStatus env client now clientIP w).1
       ≠ Normal (InMemoryStatus ip count limit resetTime)).
Proof.
  split; [reflexivity|].
  unfold getRateLimitStatus.
  destruct (useRedis w && _)%bool.
  - destruct (get client _ _ _) as [[count|message] r]; cbn;
      (split; [by eexists _, _|]); by split.
  - cbn. by repeat split.
Qed.

(** ** Requests in flight on the in-memory store *)

Section InFlight.

Context (env : Env) {R : Type} (client : RedisClient R)
        (ty : LimiterType) (id : string).

Let key := limiterKeyOf ty id.
Let limit := maxRequestsFor env ty.

Lemma counted_stored T k m : counted key T k m → storedCount m key = Z.of_nat k.
Proof.
  unfold storedCount. destruct k; cbn.
  - by intros ->.
  - by intros (r & -> & _).
Qed.

(** One more request below the limit, inside the window: it is allowed and
    counted. *)
Lemma checkInMemory_counted T k m now :
  counted key T k m → T ≤ now ≤ T + RATE_LIMIT_WINDOW → Z.of_nat k < limit →
  Result.allowed (checkInMemoryRateLimit env now id ty m).1 = true
  ∧ counted key T (S k) (checkInMemoryRateLimit env now id ty m).2.
Proof.
  intros Hk Hnow Hroom. destruct k as [|k]; cbn in Hk.
  - rewrite (checkInMemory_absent env now id ty m Hk). cbn. split; [done|].
    exists (now + RATE_LIMIT_WINDOW). rewrite lookup_insert_eq. split; [done|lia].
  - destruct Hk as (r & Hm & Hr).
    rewrite (checkInMemory_count env now id ty m _ Hm) by (cbn; lia).
    cbn. split; [done|]. exists r. rewrite lookup_insert_eq.
    split; [|done]. do 2 f_equal. lia.
Qed.

(** The rest of the handler on the in-memory store: the check and its
    answer. *)
Lemma limiterTryCatch_local req clk (w : World R) :
  useRedis w = false → extractClientIP req = Normal id →
  let checked :=
    checkInMemoryRateLimit env (t_start clk) id ty (inMemoryRateLimitMap w) in
  ∃ res,
    limiterTryCatch env client ty req clk w = (Normal (), res, setMap checked.2 w)
    ∧ decisionSent env ty checked.1 res.
Proof.
  intros Hflag Hid checked. unfold limiterTryCatch.
  destruct (limiterBody _ _ _ _ _ _ _) as [[c res] w'] eqn:Hbody.
  assert (w' = setMap checked.2 w) as ->.
  { unfold limiterBody in Hbody. rewrite Hid, Hflag in Hbody. cbn in Hbody.
    subst checked.
    destruct (checkInMemoryRateLimit _ _ _ _ _) as [result m]. cbn.
    destruct (negb _); [destruct (Result.retryAfter _)|]; by simplify_eq. }
  destruct (decision_sent env client ty req clk _ c res _ Hbody id Hid checked.1)
    as [-> Hsent].
  - by rewrite Hflag.
  - apply checkInMemory_denied_hint.
  - by exists res.
Qed.

Lemma finishedCount_insert (tasks : list Task) :
  ∀ (i : nat) t t',
    tasks !! i = Some t →
    (finishedCount (<[i := t']> tasks) + (if isFinished t then 1 else 0)
     = finishedCount tasks + (if isFinished t' then 1 else 0))%nat.
Proof.
  unfold finishedCount.
  induction tasks as [|t0 tasks IH]; intros i t t' Hi; [done|].
  destruct i as [|i]; cbn in Hi.
  - simplify_eq. cbn. destruct (isFinished t), (isFinished t'); cbn [length]; lia.
  - specialize (IH i t t' Hi).
    change (<[S i:=t']> (t0 :: tasks)) with (t0 :: <[i:=t']> tasks).
    cbn [List.filter].
    destruct (isFinished t0), (isFinished t), (isFinished t'); cbn [length] in *; lia.
Qed.

Lemma finishedCount_le (tasks : list Task) :
  (finishedCount tasks ≤ length tasks)%nat.
Proof. unfold finishedCount. apply List.filter_length_le. Qed.

Lemma finishedCount_unfinished (tasks : list Task) (i : nat) t :
  tasks !! i = Some t → isFinished t = false →
  (finishedCount tasks < length tasks)%nat.
Proof.
  unfold finishedCount. revert i.
  induction tasks as [|t0 tasks IH]; intros i Hi Hun; [done|].
  destruct i as [|i]; cbn in Hi |- *.
  - simplify_eq. rewrite Hun. pose proof (List.filter_length_le isFinished tasks). lia.
  - specialize (IH i Hi Hun). destruct (isFinished t0); cbn [length]; lia.
Qed.

Lemma finishedCount_all (tasks : list Task) :
  Forall (λ t, isFinished t = true) tasks → finishedCount tasks = length tasks.
Proof.
  unfold finishedCount. induction 1 as [|t tasks Ht _ IH]; [done|].
  cbn. rewrite Ht. cbn. by rewrite IH.
Qed.

Lemma resume_inFlight T tasks (w : World R) (i : nat) t req now :
  inFlight key id T tasks w →
  tasks !! i = Some t → isFinished t = false →
  extractClientIP req = Normal id →
  Z.of_nat (length tasks) ≤ limit →
  T ≤ now ≤ T + RATE_LIMIT_WINDOW →
  inFlight key id T (<[i := (resume env client ty now req w).1]> tasks)
    (resume env client ty now req w).2.
Proof.
  intros (Hflag & Hok & Hcount) Hi Hun Hid Hlimit Hnow.
  unfold resume. rewrite Hflag. cbn.
  destruct (limiterTryCatch_local req (instant now) w Hflag Hid)
    as (res & -> & Hsent).
  cbn in Hsent |- *.
  pose proof (finishedCount_unfinished tasks i t Hi Hun) as Hlt.
  destruct (checkInMemory_counted T (finishedCount tasks) _ now Hcount Hnow)
    as [Hallowed Hcounted]; [lia|].
  destruct Hsent as (_ & _ & _ & Hfwd). rewrite Hallowed in Hfwd.
  pose proof (finishedCount_insert tasks i t (Finished res) Hi) as Hins.
  rewrite Hun in Hins. cbn in Hins.
  split; [done|]. split.
  - by apply Forall_insert.
  - cbn. by replace (finishedCount (<[i:=Finished res]> tasks))
      with (S (finishedCount tasks)) by lia.
Qed.

Lemma dispatch_inFlight T tasks (w : World R) ev :
  redisConfigured env = false →
  inFlight key id T tasks w →
  Z.of_nat (length tasks) ≤ limit →
  T ≤ ev.2 ≤ T + RATE_LIMIT_WINDOW →
  inFlight key id T (dispatch env client ty ev tasks w).1 (dispatch env client ty ev tasks w).2
  ∧ length (dispatch env client ty ev tasks w).1 = length tasks.
Proof.
  intros Hlocal Hin Hlimit Hnow. unfold dispatch.
  destruct (tasks !! ev.1) as [t|] eqn:Hi; [|done].
  assert (taskOk id t) as Ht.
  { destruct Hin as (_ & Hok & _). eapply Forall_lookup_1; eauto. }
  destruct t as [req|req|req|res]; cbn in Ht; [| |done|].
  - cbn. destruct (rateLimiterInitialized w) eqn:Einit.
    + destruct (resume env client ty ev.2 req w) as [t' w'] eqn:Hres. cbn.
      rewrite length_insert. split; [|done].
      pose proof (resume_inFlight T tasks w ev.1 (Arrived req) req ev.2
                    Hin Hi eq_refl Ht Hlimit Hnow) as H.
      by rewrite Hres in H.
    + rewrite Hlocal. cbn. rewrite length_insert. split; [|done].
      destruct Hin as (Hflag & Hok & Hcount).
      pose proof (finishedCount_insert tasks ev.1 (Arrived req) (AwaitingInit req) Hi)
        as Hins. cbn in Hins.
      unfold initializeRedis. rewrite Einit, Hlocal. cbn.
      split; [done|]. split; [by apply Forall_insert|].
      by replace (finishedCount (<[ev.1:=AwaitingInit req]> tasks))
        with (finishedCount tasks) by lia.
  - cbn. destruct (resume env client ty ev.2 req w) as [t' w'] eqn:Hres. cbn.
    rewrite length_insert. split; [|done].
    pose proof (resume_inFlight T tasks w ev.1 (AwaitingInit req) req ev.2
                  Hin Hi eq_refl Ht Hlimit Hnow) as H.
    by rewrite Hres in H.
  - cbn. rewrite length_insert. split; [|done].
    by rewrite list_insert_id.
Qed.

Lemma eventLoop_inFlight T schedule :
  ∀ tasks (w : World R),
    redisConfigured env = false →
    inFlight key id T tasks w →
    Z.of_nat (length tasks) ≤ limit →
    Forall (λ ev, T ≤ ev.2 ≤ T + RATE_LIMIT_WINDOW) schedule →
    inFlight key id T (eventLoop env client ty schedule tasks w).1
      (eventLoop env client ty schedule tasks w).2
    ∧ length (eventLoop env client ty schedule tasks w).1 = length tasks.
Proof.
  induction schedule as [|ev rest IH]; intros tasks w Hlocal Hin Hlimit Hall;
    [done|].
  apply Forall_cons in Hall as [Hnow Hall]. cbn.
  destruct (dispatch_inFlight T tasks w ev Hlocal Hin Hlimit Hnow) as [Hin' Hlen].
  destruct (dispatch env client ty ev tasks w) as [tasks' w']. cbn in *.
  rewrite <- Hlen. apply IH; [done..| |done]. by rewrite Hlen.
Qed.

(** The same requests handled one after the other. *)
Lemma serve_local_counted T reqs :
  ∀ (w : World R) k,
    localBackend env w →
    counted key T k (inMemoryRateLimitMap w) →
    Forall (λ rc, extractClientIP rc.1 = Normal id
                  ∧ T ≤ t_start rc.2 ≤ T + RATE_LIMIT_WINDOW) reqs →
    Z.of_nat (k + length reqs) ≤ limit →
    counted key T (k + length reqs)
      (inMemoryRateLimitMap (serve env client ty reqs w).2).
Proof.
  induction reqs as [|[req clk] rest IH]; intros w k Hloc Hk Hall Hlimit.
  - cbn. by rewrite Nat.add_0_r.
  - apply Forall_cons in Hall as [[Hid Ht] Hall]. cbn in Hid, Ht, Hlimit.
    rewrite serve_cons. cbn [snd length].
    destruct (createRateLimiter_local env client ty req clk w id Hloc Hid)
      as (res & -> & _). cbn [snd].
    destruct (checkInMemory_counted T k (inMemoryRateLimitMap w) (t_start clk) Hk Ht)
      as [_ Hk']; [lia|].
    replace (k + S (length rest))%nat with (S k + length rest)%nat by lia.
    apply IH; [by apply localBackend_step|done|done|lia].
Qed.

End InFlight.

(** C9. Requests of one identity that are in flight together on the
    in-memory store lose no increment.  Each handler runs between its
    suspension points without interruption, and the check of the in-memory
    store has none; so for whatever order in which the event loop gives the
    handlers their turns, once [n] requests below the limit have all been
    handled within the window, the stored count is [n], and that is the
    count that the same requests leave when they are handled one after
    the other; every one of them has been forwarded. *)
Theorem no_lost_increment (env : Env) {R} (client : RedisClient R)
    (ty : LimiterType) (id : string) (reqs : list Request.t)
    (schedule : list (nat * Z)) (w : World R) (T : Z) :
  redisConfigured env = false →
  useRedis w = false →
  inMemoryRateLimitMap w !! limiterKeyOf ty id = None →
  Forall (λ req, extractClientIP req = Normal id) reqs →
  Z.of_nat (length reqs) ≤ maxRequestsFor env ty →
  Forall (λ ev, T ≤ ev.2 ≤ T + RATE_LIMIT_WINDOW) schedule →
  let final := eventLoop env client ty schedule (Arrived <$> reqs) w in
  let serial := serve env client ty ((λ req, (req, instant T)) <$> reqs) w in
  Forall (λ t, isFinished t = true) final.1 →
  storedCount (inMemoryRateLimitMap final.2) (limiterKeyOf ty id)
  = Z.of_nat (length reqs)
  ∧ storedCount (inMemoryRateLimitMap final.2) (limiterKeyOf ty id)
    = storedCount (inMemoryRateLimitMap serial.2) (limiterKeyOf ty id)
  ∧ Forall (λ t, ∃ res, t = Finished res ∧ isForwarded res = true) final.1.
Proof.
  intros Hlocal Hflag Hnone Hids Hlimit Hwin final serial Hdone.
  assert (inFlight (limiterKeyOf ty id) id T (Arrived <$> reqs) w) as Hin.
  { split; [done|]. split.
    - apply Forall_fmap. by eapply Forall_impl; [exact Hids|].
    - assert (finishedCount (Arrived <$> reqs) = 0%nat) as ->; [|done].
      unfold finishedCount. clear. by induction reqs. }
  destruct (eventLoop_inFlight env client ty id T schedule (Arrived <$> reqs) w
              Hlocal Hin) as [(_ & Hok & Hcount) Hlen];
    [by rewrite length_fmap|done|].
  fold final in Hok, Hcount, Hlen. rewrite length_fmap in Hlen.
  rewrite (finishedCount_all _ Hdone), Hlen in Hcount.
  apply counted_stored in Hcount.
  assert (storedCount (inMemoryRateLimitMap serial.2) (limiterKeyOf ty id)
          = Z.of_nat (length reqs)) as Hserial.
  { pose proof (serve_local_counted env client ty id T
                  ((λ req, (req, instant T)) <$> reqs) w 0) as H.
    rewrite length_fmap in H. cbn in H.
    apply (counted_stored ty id T). apply H; [by split|done| |done].
    apply Forall_fmap. eapply Forall_impl; [exact Hids|].
    intros req Hreq. cbn. split; [done|]. unfold RATE_LIMIT_WINDOW. lia. }
  split; [done|]. split; [congruence|].
  apply Forall_forall. intros t Ht.
  pose proof (proj1 (Forall_forall _ _) Hok t Ht) as Hokt.
  pose proof (proj1 (Forall_forall _ _) Hdone t Ht) as Hfin.
  destruct t as [req|req|req|res]; try done. by exists res.
Qed.

Lemma no_lost_increment_witness :
  let reqs := replicate 3 (forwardedFor "1.2.3.4") in
  let interleaved : list (nat * Z) :=
    [(0%nat, 10); (1%nat, 11); (2%nat, 12); (1%nat, 13); (0%nat, 14)] in
  let run schedule :=
    eventLoop ∅ createMockRedis processing schedule (Arrived <$> reqs)
      (freshWorld ∅) in
  (run [(0%nat, 10); (1%nat, 11)]).1 !! 0%nat
  = Some (AwaitingInit (forwardedFor "1.2.3.4"))
  ∧ storedCount (inMemoryRateLimitMap (run interleaved).2)
      (limiterKeyOf processing "1.2.3.4") = 3
  ∧ storedCount (inMemoryRateLimitMap (run (serialSchedule 10 0 3)).2)
      (limiterKeyOf processing "1.2.3.4") = 3.
Proof.
  intros reqs interleaved run. split; [vm_compute; reflexivity|]. split.
  - refine (proj1 (no_lost_increment ∅ createMockRedis processing "1.2.3.4"
                     reqs interleaved (freshWorld ∅) 10 _ _ _ _ _ _ _)).
    + reflexivity.
    + reflexivity.
    + reflexivity.
    + subst reqs. each_request ltac:(exact eq_refl).
    + vm_compute. discriminate.
    + subst interleaved.
      repeat (apply Forall_cons_2; [split; vm_compute; discriminate|]).
      apply Forall_nil_2.
    + subst reqs interleaved. vm_compute.
      repeat (apply Forall_cons_2; [reflexivity|]). apply Forall_nil_2.
  - refine (proj1 (no_lost_increment ∅ createMockRedis processing "1.2.3.4"
                     reqs (serialSchedule 10 0 3) (freshWorld ∅) 10 _ _ _ _ _ _ _)).
    + reflexivity.
    + reflexivity.
    + reflexivity.
    + subst reqs. each_request ltac:(exact eq_refl).
    + vm_compute. discriminate.
    + cbn [serialSchedule].
      repeat (apply Forall_cons_2; [split; vm_compute; discriminate|]).
      apply Forall_nil_2.
    + subst reqs. vm_compute.
      repeat (apply Forall_cons_2; [reflexivity|]). apply Forall_nil_2.
Defined.

(** * Further properties of the module and of the code around it *)

(** ** sanitizeIP *)

(** X1. The sanitized identity has the length of the identity and neither
    colon nor dot; an identity without colon and dot is left as it is, so
    sanitizing twice is sanitizing once. *)
Theorem sanitizeIP_shape (ip : string) :
  String.length (sanitizeIP ip) = String.length ip
  ∧ noColonDot (sanitizeIP ip) = true
  ∧ (noColonDot ip = true → sanitizeIP ip = ip)
  ∧ sanitizeIP (sanitizeIP ip) = sanitizeIP ip.
Proof.
  unfold sanitizeIP.
  assert (∀ s, noColonDot s = true → replaceColonDot s = s) as Hid.
  { induction s as [|c r IH]; cbn; [done|].
    destruct (Ascii.eqb c ":"), (Ascii.eqb c "."); cbn; try done.
    intros H. by rewrite (IH H). }
  assert (∀ s, noColonDot (replaceColonDot s) = true) as Hclean.
  { induction s as [|c r IH]; cbn; [done|].
    destruct (Ascii.eqb c ":") eqn:E1, (Ascii.eqb c ".") eqn:E2; cbn;
      rewrite ?E1, ?E2; done. }
  split; [|split; [apply Hclean|split; [apply Hid|apply Hid, Hclean]]].
  induction ip as [|c r IH]; cbn; [done|]. by rewrite IH.
Qed.

Lemma sanitizeIP_shape_witness :
  sanitizeIP "2001:db8::1" = "2001-db8--1"%string
  ∧ sanitizeIP "10-0-0-7" = "10-0-0-7"%string.
Proof.
  split; [vm_compute; reflexivity|].
  apply (proj1 (proj2 (proj2 (sanitizeIP_shape "10-0-0-7")))).
  vm_compute. reflexivity.
Defined.


(** ** initializeRedis *)

(** X2. From a process that is not initialised, [initializeRedis] raises
    [useRedis] exactly when both credentials are set, the package loads and
    [ping] answers; without credentials it contacts no store and creates no
    client; and once it has run, running it again changes nothing. *)
Theorem initializeRedis_selects_once (env : Env) {R} (client : RedisClient R)
    (w : World R) :
  (rateLimiterInitialized w = false → useRedis w = false →
   useRedis (initializeRedis env client w)
   = (redisConfigured env && isNormal (import_ client)
      && isNormal (ping client (redisStore w)).1)%bool)
  ∧ (rateLimiterInitialized w = false → redisConfigured env = false →
     initializeRedis env client w = setInitialized true w)
  ∧ initializeRedis env client (initializeRedis env client w)
    = initializeRedis env client w
  ∧ inMemoryRateLimitMap (initializeRedis env client w) = inMemoryRateLimitMap w.
Proof.
  split; [|split; [|split]].
  - intros Hinit Hflag. unfold initializeRedis. rewrite Hinit.
    destruct (redisConfigured env); cbn; [|done].
    destruct (import_ client); cbn; [|done].
    by destruct (ping client (redisStore w)) as [[] ?].
  - intros Hinit Hconf. unfold initializeRedis. by rewrite Hinit, Hconf.
  - destruct (initializeRedis_done env client w) as [Hdone _].
    unfold initializeRedis at 1. by rewrite Hdone.
  - apply initializeRedis_done.
Qed.

Lemma initializeRedis_selects_once_witness :
  useRedis (initializeRedis upstashEnv droppingRedis (freshWorld ())) = true
  ∧ useRedis (initializeRedis upstashEnv unreachableRedis (freshWorld ())) = false
  ∧ initializeRedis ∅ droppingRedis (freshWorld ()) = setInitialized true (freshWorld ()).
Proof.
  destruct (initializeRedis_selects_once upstashEnv droppingRedis (freshWorld ()))
    as (H1 & _).
  destruct (initializeRedis_selects_once upstashEnv unreachableRedis (freshWorld ()))
    as (H2 & _).
  destruct (initializeRedis_selects_once ∅ droppingRedis (freshWorld ()))
    as (_ & H3 & _).
  split; [|split].
  - rewrite H1; [vm_compute; reflexivity|reflexivity|reflexivity].
  - rewrite H2; [vm_compute; reflexivity|reflexivity|reflexivity].
  - apply H3; reflexivity.
Defined.

(** ** clearAllLimits *)

Lemma createRateLimiter_mock_ignores_map (env : Env) ty req clk
    (w : World (gmap string RedisEntry.t)) (m : gmap string Limiter.t) :
  redisBackend w →
  (createRateLimiter env createMockRedis ty req clk (setMap m w)).1
  = (createRateLimiter env createMockRedis ty req clk w).1
  ∧ redisStore (createRateLimiter env createMockRedis ty req clk (setMap m w)).2
    = redisStore (createRateLimiter env createMockRedis ty req clk w).2.
Proof.
  intros (Hinit & Hflag & Hclient).
  unfold createRateLimiter, limiterTryCatch, limiterBody. cbn. rewrite !Hinit.
  cbn. rewrite !Hflag, !(bool_decide_eq_true_2 _ Hclient). cbn.
  destruct (extractClientIP req) as [id|msg]; [|done].
  rewrite (checkRedis_mock_step env clk id ty w Hclient).
  rewrite (checkRedis_mock_step env clk id ty (setMap m w) Hclient). cbn.
  unfold redisDecision. by destruct (_ <? _).
Qed.

(** X3. On the in-memory backend [clearAllLimits] gives every identity its
    full quota back, whatever had been counted; on the Redis backend it
    changes no answer of the middleware and leaves the store alone. *)
Theorem clearAllLimits_effect (env : Env) (ty : LimiterType) (id : string)
    (req : Request.t) (clk : Clock) (rest : list (Request.t * Clock)) :
  extractClientIP req = Normal id →
  (∀ {R} (client : RedisClient R) (w : World R),
     localBackend env w →
     1 ≤ maxRequestsFor env ty →
     Forall (λ rc, extractClientIP rc.1 = Normal id
                   ∧ t_start rc.2 ≤ t_start clk + RATE_LIMIT_WINDOW) rest →
     quotaEnforced (maxRequestsFor env ty)
       (serve env client ty ((req, clk) :: rest) (clearAllLimits w)).1)
  ∧ (∀ w : World (gmap string RedisEntry.t),
       redisBackend w →
       (createRateLimiter env createMockRedis ty req clk (clearAllLimits w)).1
       = (createRateLimiter env createMockRedis ty req clk w).1
       ∧ redisStore (clearAllLimits w) = redisStore w
       ∧ redisStore
           (createRateLimiter env createMockRedis ty req clk (clearAllLimits w)).2
         = redisStore (createRateLimiter env createMockRedis ty req clk w).2).
Proof.
  intros Hid. split.
  - intros R client w Hloc Hlimit Hall i res Hi.
    eapply (serve_local_opening env client ty id req clk rest (clearAllLimits w))
      in Hi; [|by destruct Hloc|by cbn; rewrite lookup_empty|done|done].
    destruct i as [|i]; cbn in Hi.
    + by rewrite bool_decide_eq_true_2 by lia.
    + by rewrite bool_decide_eq_true_2 in Hi by lia.
  - intros w Hmode.
    destruct (createRateLimiter_mock_ignores_map env ty req clk w ∅ Hmode).
    done.
Qed.

Lemma clearAllLimits_effect_witness :
  let full : gmap string Limiter.t :=
    {[ limiterKeyOf processing "1.2.3.4" := Limiter.mk 10 3600000 ]} in
  let w := mkWorld full None false true (∅ : gmap string RedisEntry.t) in
  is429 <$> (serve ∅ createMockRedis processing
               [(forwardedFor "1.2.3.4", instant 2000)] w).1 = [true]
  ∧ quotaEnforced (maxRequestsFor ∅ processing)
      (serve ∅ createMockRedis processing
         (replicate 12 (forwardedFor "1.2.3.4", instant 2000))
         (clearAllLimits w)).1.
Proof.
  intros full w. split; [vm_compute; reflexivity|].
  destruct (clearAllLimits_effect ∅ processing "1.2.3.4" (forwardedFor "1.2.3.4")
              (instant 2000) (replicate 11 (forwardedFor "1.2.3.4", instant 2000))
              eq_refl) as [Hlocal _].
  apply Hlocal.
  - split; [reflexivity|]. intros H. discriminate H.
  - vm_compute. discriminate.
  - each_request ltac:(split; [exact eq_refl|vm_compute; discriminate]).
Defined.

(** ** The rate-limit headers *)


Lemma decisionSent_headers env ty result res :
  decisionSent env ty result res →
  rateHeaders (maxRequestsFor env ty) (Z.max 0 (Result.remaining result))
    (floorDiv (Result.resetTime result) 1000) res.
Proof. intros (? & ? & ? & _). by repeat split. Qed.

Ltac same_headers H :=
  match goal with
  | |- rateHeaders _ ?a _ _ =>
      match type of H with
      | rateHeaders _ ?b _ _ => replace a with b by lia; exact H
      end
  end.

Lemma serve_local_window_headers (env : Env) {R} (client : RedisClient R) ty id reqs :
  ∀ (w : World R) k r,
    localBackend env w →
    inMemoryRateLimitMap w !! limiterKeyOf ty id = Some (Limiter.mk k r) →
    Forall (λ rc, extractClientIP rc.1 = Normal id ∧ t_start rc.2 ≤ r) reqs →
    ∀ (i : nat) res, (serve env client ty reqs w).1 !! i = Some res →
      rateHeaders (maxRequestsFor env ty)
        (Z.max 0 (maxRequestsFor env ty - (k + Z.of_nat i + 1)))
        (floorDiv r 1000) res.
Proof.
  induction reqs as [|[req clk] rest IH]; intros w k r Hloc Hk Hall i res Hi;
    [done|].
  apply Forall_cons in Hall as [[Hid Ht] Hall]. cbn in Hid, Ht.
  rewrite serve_cons in Hi. cbn in Hi.
  destruct (createRateLimiter_local env client ty req clk w id Hloc Hid)
    as (res0 & Hmw & Hsent).
  rewrite Hmw in Hi. cbn in Hi.
  destruct (decide (maxRequestsFor env ty ≤ k)) as [Hfull|Hroom].
  - rewrite (checkInMemory_full env _ id ty _ _ Hk Ht Hfull) in Hi, Hsent.
    cbn in Hi, Hsent. apply decisionSent_headers in Hsent. cbn in Hsent.
    destruct i as [|i]; cbn in Hi.
    + simplify_eq. same_headers Hsent.
    + eapply (IH _ k r) in Hi; [|by apply localBackend_step|done|done].
      same_headers Hi.
  - rewrite (checkInMemory_count env _ id ty _ _ Hk Ht) in Hi, Hsent
      by (cbn; lia).
    cbn in Hi, Hsent. apply decisionSent_headers in Hsent. cbn in Hsent.
    destruct i as [|i]; cbn in Hi.
    + simplify_eq. same_headers Hsent.
    + eapply (IH _ (k + 1) r) in Hi;
        [|by apply localBackend_step|by cbn; rewrite lookup_insert_eq|done].
      same_headers Hi.
Qed.

(** X4. On the in-memory backend the responses of one window count the
    quota down: response [i] (from 0) carries the limit, the remaining
    [max(0, limit - (i + 1))], that is [limit - 1], ..., 0 and then 0 for
    the rejected ones, and all of them carry the same reset second, the one
    of the request that opened the window. *)
Theorem headers_count_down_in_memory (env : Env) {R} (client : RedisClient R)
    (ty : LimiterType) (id : string) (req : Request.t) (clk : Clock)
    (rest : list (Request.t * Clock)) (w : World R) :
  localBackend env w →
  windowOver (t_start clk) (inMemoryRateLimitMap w !! limiterKeyOf ty id) →
  Forall (λ rc, extractClientIP rc.1 = Normal id
                ∧ t_start rc.2 ≤ t_start clk + RATE_LIMIT_WINDOW)
    ((req, clk) :: rest) →
  ∀ (i : nat) res,
    (serve env client ty ((req, clk) :: rest) w).1 !! i = Some res →
    rateHeaders (maxRequestsFor env ty)
      (Z.max 0 (maxRequestsFor env ty - (Z.of_nat i + 1)))
      (floorDiv (t_start clk + RATE_LIMIT_WINDOW) 1000) res.
Proof.
  intros Hloc Hover Hall i res Hi.
  apply Forall_cons in Hall as [[Hid _] Hall]. cbn in Hid.
  rewrite serve_cons in Hi. cbn in Hi.
  destruct (createRateLimiter_local env client ty req clk w id Hloc Hid)
    as (res0 & Hmw & Hsent).
  rewrite Hmw in Hi. cbn in Hi.
  assert (checkInMemoryRateLimit env (t_start clk) id ty (inMemoryRateLimitMap w)
          = (Result.mk true (maxRequestsFor env ty - 1)
               (t_start clk + RATE_LIMIT_WINDOW) None,
             <[limiterKeyOf ty id := Limiter.mk 1 (t_start clk + RATE_LIMIT_WINDOW)]>
               (inMemoryRateLimitMap w))) as Hopen.
  { destruct (inMemoryRateLimitMap w !! limiterKeyOf ty id) as [l|] eqn:E.
    - by eapply checkInMemory_expired.
    - by apply checkInMemory_absent. }
  rewrite Hopen in Hi, Hsent. cbn in Hi, Hsent.
  apply decisionSent_headers in Hsent. cbn in Hsent.
  destruct i as [|i]; cbn in Hi; [simplify_eq; same_headers Hsent|].
  eapply (serve_local_window_headers env client ty id rest _ 1) in Hi;
    [|by apply localBackend_step|by cbn; rewrite lookup_insert_eq|done].
  same_headers Hi.
Qed.

Lemma headers_count_down_in_memory_witness :
  (λ res, Res.headers res !! "X-RateLimit-Remaining"%string)
    <$> (serve ∅ createMockRedis processing
           (replicate 12 (forwardedFor "1.2.3.4", instant 1000)) (freshWorld ∅)).1
  = Some <$> [9; 8; 7; 6; 5; 4; 3; 2; 1; 0; 0; 0]
  ∧ ∀ (i : nat) res,
      (serve ∅ createMockRedis processing
         (replicate 12 (forwardedFor "1.2.3.4", instant 1000)) (freshWorld ∅)).1
      !! i = Some res →
      Res.headers res !! "X-RateLimit-Reset"%string = Some 3601.
Proof.
  split; [vm_compute; reflexivity|].
  intros i res Hi.
  refine (proj2 (proj2
            (headers_count_down_in_memory ∅ createMockRedis processing "1.2.3.4"
               (forwardedFor "1.2.3.4") (instant 1000)
               (replicate 11 (forwardedFor "1.2.3.4", instant 1000))
               (freshWorld ∅) _ _ _ i res Hi))).
  - split; [reflexivity|]. intros _. reflexivity.
  - exact I.
  - apply Forall_cons_2; [split; [exact eq_refl|vm_compute; discriminate]|].
    each_request ltac:(split; [exact eq_refl|vm_compute; discriminate]).
Defined.

Lemma redisDecision_headers env ty clk count res :
  decisionSent env ty (redisDecision env ty clk count) res →
  rateHeaders (maxRequestsFor env ty) (Z.max 0 (maxRequestsFor env ty - count))
    (floorDiv (t_start clk + RATE_LIMIT_WINDOW) 1000) res.
Proof.
  intros H%decisionSent_headers. unfold redisDecision in H.
  destruct (_ <? _) eqn:E; cbn in H.
  - apply Z.ltb_lt in E. same_headers H.
  - same_headers H.
Qed.

Lemma serve_redis_window_headers (env : Env) ty id reqs :
  ∀ (w : World (gmap string RedisEntry.t)) e,
    redisBackend w →
    redisStore w !! limiterKeyOf ty (sanitizeIP id) = Some e →
    1 ≤ RedisEntry.value e →
    Forall (λ rc, extractClientIP rc.1 = Normal id
                  ∧ MockRedisClient.expired (t_incr rc.2) e = false) reqs →
    ∀ (i : nat) res rc,
      (serve env createMockRedis ty reqs w).1 !! i = Some res →
      reqs !! i = Some rc →
      rateHeaders (maxRequestsFor env ty)
        (Z.max 0 (maxRequestsFor env ty - (RedisEntry.value e + Z.of_nat i + 1)))
        (floorDiv (t_start rc.2 + RATE_LIMIT_WINDOW) 1000) res.
Proof.
  induction reqs as [|[req clk] rest IH];
    intros w e Hmode He Hv Hall i res rc Hi Hrc; [done|].
  apply Forall_cons in Hall as [[Hid Hlive] Hall]. cbn in Hid, Hlive.
  rewrite serve_cons in Hi. cbn in Hi.
  destruct (createRateLimiter_redis env createMockRedis ty req clk w id Hmode Hid)
    as (result & res0 & Hcheck & Hmw & Hsent).
  rewrite Hmw in Hi. cbn in Hi.
  pose proof Hmode as (_ & _ & Hclient).
  rewrite (checkRedis_mock_count env clk id ty w e) in Hcheck, Hi
    by (done || lia).
  cbn in Hcheck, Hi. injection Hcheck as <-.
  apply redisDecision_headers in Hsent.
  destruct i as [|i]; cbn in Hi, Hrc.
  - simplify_eq. cbn. same_headers Hsent.
  - eapply (IH _ (RedisEntry.mk (RedisEntry.value e + 1)
                    (MockRedisClient.expiresAtOrNull e)) _ _ _ _ i res rc) in Hi;
      [|done].
    cbn in Hi. same_headers Hi.
    Unshelve.
    + by apply redisBackend_setStore.
    + cbn. by rewrite lookup_insert_eq.
    + cbn. lia.
    + eapply Forall_impl; [exact Hall|]. intros ? [? ?].
      by rewrite mock_expired_normalised.
Qed.

(** X5. On the Redis backend (the mock store) the responses of one window
    count the quota down in the same way, [max(0, limit - (i + 1))], but
    each carries the reset second of its own arrival plus one hour: the
    reset that is reported moves with every request, while the key expires
    one hour after the first one. *)
Theorem headers_count_down_redis (env : Env) (ty : LimiterType) (id : string)
    (req : Request.t) (clk : Clock) (rest : list (Request.t * Clock))
    (w : World (gmap string RedisEntry.t)) :
  redisBackend w →
  keyGone (t_incr clk) (redisStore w !! limiterKeyOf ty (sanitizeIP id)) →
  Forall (λ rc, extractClientIP rc.1 = Normal id
                ∧ t_incr rc.2 ≤ t_expire clk + 3600 * 1000)
    ((req, clk) :: rest) →
  ∀ (i : nat) res rc,
    (serve env createMockRedis ty ((req, clk) :: rest) w).1 !! i = Some res →
    ((req, clk) :: rest) !! i = Some rc →
    rateHeaders (maxRequestsFor env ty)
      (Z.max 0 (maxRequestsFor env ty - (Z.of_nat i + 1)))
      (floorDiv (t_start rc.2 + RATE_LIMIT_WINDOW) 1000) res.
Proof.
  intros Hmode Hgone Hall i res rc Hi Hrc.
  apply Forall_cons in Hall as [[Hid _] Hall]. cbn in Hid.
  rewrite serve_cons in Hi. cbn in Hi.
  destruct (createRateLimiter_redis env createMockRedis ty req clk w id Hmode Hid)
    as (result & res0 & Hcheck & Hmw & Hsent).
  rewrite Hmw in Hi. cbn in Hi.
  pose proof Hmode as (_ & _ & Hclient).
  destruct (checkRedis_mock_first env clk id ty w Hclient Hgone)
    as (s' & Hfirst & Hs' & _).
  rewrite Hfirst in Hcheck, Hi. cbn in Hcheck, Hi. injection Hcheck as <-.
  apply redisDecision_headers in Hsent.
  destruct i as [|i]; cbn in Hi, Hrc.
  - simplify_eq. cbn. same_headers Hsent.
  - eapply (serve_redis_window_headers env ty id rest _
              (RedisEntry.mk 1 (Some (t_expire clk + 3600 * 1000)))
              _ _ _ _ i res rc) in Hi; [|done].
    cbn in Hi. same_headers Hi.
    Unshelve.
    + by apply redisBackend_setStore.
    + exact Hs'.
    + cbn. lia.
    + eapply Forall_impl; [exact Hall|]. intros ? [? Hle]. split; [done|].
      unfold MockRedisClient.expired. cbn.
      apply andb_false_intro2. by apply Z.ltb_ge.
Qed.

Lemma headers_count_down_redis_witness :
  let reqs :=
    [(forwardedFor "1.2.3.4", instant 1000);
     (forwardedFor "1.2.3.4", instant 61000);
     (forwardedFor "1.2.3.4", instant 121000)] in
  (λ res, (Res.headers res !! "X-RateLimit-Remaining"%string,
           Res.headers res !! "X-RateLimit-Reset"%string))
    <$> (serve ∅ createMockRedis processing reqs (redisWorld ∅)).1
  = [(Some 9, Some 3601); (Some 8, Some 3661); (Some 7, Some 3721)]
  ∧ ∀ res,
      (serve ∅ createMockRedis processing reqs (redisWorld ∅)).1 !! 2%nat
      = Some res →
      Res.headers res !! "X-RateLimit-Remaining"%string = Some 7.
Proof.
  intros reqs. split; [vm_compute; reflexivity|].
  intros res Hi.
  refine (proj1 (proj2
            (headers_count_down_redis ∅ processing "1.2.3.4"
               (forwardedFor "1.2.3.4") (instant 1000)
               [(forwardedFor "1.2.3.4", instant 61000);
                (forwardedFor "1.2.3.4", instant 121000)]
               (redisWorld ∅) _ _ _ 2%nat res
               (forwardedFor "1.2.3.4", instant 121000) Hi eq_refl))).
  - split; [reflexivity|]. split; [reflexivity|]. eexists. reflexivity.
  - exact I.
  - repeat (apply Forall_cons_2; [split; [exact eq_refl|vm_compute; discriminate]|]).
    apply Forall_nil_2.
Defined.

(** X6. Whatever the request, the client and the state of the process, the
    middleware completes, it either forwards the request or answers 429
    and never both, its response carries [X-RateLimit-Limit] with the limit
    of the namespace, and an [X-RateLimit-Remaining] it carries is never
    negative. *)
Theorem every_response_is_well_formed (env : Env) {R} (client : RedisClient R)
    (ty : LimiterType) (req : Request.t) (clk : Clock) (w : World R) :
  let out := createRateLimiter env client ty req clk w in
  out.1.1 = Normal ()
  ∧ Res.headers out.1.2 !! "X-RateLimit-Limit"%string = Some (maxRequestsFor env ty)
  ∧ (∀ v, Res.headers out.1.2 !! "X-RateLimit-Remaining"%string = Some v → 0 ≤ v)
  ∧ isForwarded out.1.2 = negb (is429 out.1.2).
Proof.
  unfold createRateLimiter, limiterTryCatch, limiterBody.
  set (w1 := if rateLimiterInitialized w then w else initializeRedis env client w).
  destruct (extractClientIP req) as [id|msg]; [|cbn; repeat split; done].
  destruct (if (useRedis w1 && _)%bool then _ else _) as [[result|msg] w2];
    [|cbn; repeat split; done].
  destruct (Result.allowed result); cbn.
  - repeat split; try done. intros v Hv.
    rewrite lookup_insert_ne, lookup_insert_eq in Hv by done. simplify_eq. lia.
  - destruct (Result.retryAfter result) as [hint|]; cbn.
    + repeat split; try done. intros v Hv.
      rewrite !lookup_insert_ne, lookup_insert_eq in Hv by done. simplify_eq. lia.
    + repeat split; try done. intros v Hv.
      rewrite !lookup_insert_ne, lookup_insert_eq in Hv by done. simplify_eq. lia.
Qed.

Lemma every_response_is_well_formed_witness :
  Res.headers
    (createRateLimiter ∅ unreachableRedis processing
       (forwardedFor "1.2.3.4") (instant 1000) (redisWorld ())).1.2
  !! "X-RateLimit-Remaining"%string = Some 9
  ∧ 0 ≤ 9.
Proof.
  split; [vm_compute; reflexivity|].
  refine (proj1 (proj2 (proj2
            (every_response_is_well_formed ∅ unreachableRedis processing
               (forwardedFor "1.2.3.4") (instant 1000) (redisWorld ()))))
            9 _).
  vm_compute. reflexivity.
Defined.

(** ** What the counters hold *)


Lemma checkInMemory_bounds env now id ty (m : gmap string Limiter.t) :
  countInBounds (maxRequestsFor env ty) (m !! limiterKeyOf ty id) →
  ∃ l, (checkInMemoryRateLimit env now id ty m).2 !! limiterKeyOf ty id = Some l
       ∧ 1 ≤ Limiter.count l ≤ Z.max 1 (maxRequestsFor env ty).
Proof.
  unfold checkInMemoryRateLimit, countInBounds.
  destruct (m !! limiterKeyOf ty id) as [l|] eqn:E; cbn.
  - intros Hl. destruct (_ <? _); [|destruct (_ <=? _) eqn:E2]; cbn.
    + rewrite lookup_insert_eq. eexists. split; [done|]. cbn. lia.
    + by exists l.
    + rewrite lookup_insert_eq. eexists. split; [done|]. cbn.
      apply Z.leb_gt in E2. lia.
  - intros _. rewrite lookup_insert_eq. eexists. split; [done|]. cbn. lia.
Qed.

(** X7. The in-memory count of an identity never leaves the range from 1 to
    the limit, at whatever times its requests arrive, in or out of order;
    and a denied request changes nothing: neither the count nor the reset
    time, so that repeating it does not prolong the window. *)
Theorem in_memory_count_stays_in_bounds (env : Env) (id : string)
    (ty : LimiterType) (m : gmap string Limiter.t) :
  countInBounds (maxRequestsFor env ty) (m !! limiterKeyOf ty id) →
  (∀ times,
     countInBounds (maxRequestsFor env ty)
       (checkAtTimes env id ty times m !! limiterKeyOf ty id))
  ∧ (∀ now,
       Result.allowed (checkInMemoryRateLimit env now id ty m).1 = false →
       (checkInMemoryRateLimit env now id ty m).2 = m).
Proof.
  intros Hm. split.
  - intros times. revert m Hm.
    induction times as [|now rest IH]; intros m Hm; [done|].
    cbn. apply IH.
    destruct (checkInMemory_bounds env now id ty m Hm) as (l & -> & ?). done.
  - intros now. unfold checkInMemoryRateLimit.
    destruct (m !! limiterKeyOf ty id) as [l|]; [|done].
    destruct (_ <? _); [done|]. by destruct (_ <=? _).
Qed.

Lemma in_memory_count_stays_in_bounds_witness :
  let full : gmap string Limiter.t :=
    {[ limiterKeyOf processing "1.2.3.4" := Limiter.mk 10 5000 ]} in
  countInBounds (maxRequestsFor ∅ processing)
    (checkAtTimes ∅ "1.2.3.4" processing
       (replicate 25 7000 ++ [3; 3607001; 12; 3607002]) ∅
     !! limiterKeyOf processing "1.2.3.4")
  ∧ (checkInMemoryRateLimit ∅ 4000 "1.2.3.4" processing full).2 = full.
Proof.
  intros full. split.
  - exact (proj1 (in_memory_count_stays_in_bounds ∅ "1.2.3.4" processing ∅ I)
             (replicate 25 7000 ++ [3; 3607001; 12; 3607002])).
  - refine (proj2 (in_memory_count_stays_in_bounds ∅ "1.2.3.4" processing full _)
              4000 _).
    + vm_compute. split; discriminate.
    + vm_compute. reflexivity.
Defined.

Lemma redisRun_mock_value (env : Env) ty id calls :
  ∀ (w : World (gmap string RedisEntry.t)) e,
    is_Some (redisClient w) →
    redisStore w !! limiterKeyOf ty (sanitizeIP id) = Some e →
    1 ≤ RedisEntry.value e →
    Forall (λ c, c.1.2 = ty ∧ c.2 = id
                 ∧ MockRedisClient.expired (t_incr c.1.1) e = false) calls →
    ∃ e', redisStore (redisRun env createMockRedis calls w)
            !! limiterKeyOf ty (sanitizeIP id) = Some e'
          ∧ RedisEntry.value e' = RedisEntry.value e + Z.of_nat (length calls)
          ∧ MockRedisClient.expiresAtOrNull e' = MockRedisClient.expiresAtOrNull e.
Proof.
  induction calls as [|[[clk ty'] id'] rest IH]; intros w e Hclient He Hv Hall.
  - exists e. cbn. split; [done|]. split; [lia|done].
  - apply Forall_cons in Hall as [(Hty & Hid & Hlive) Hall]. cbn in Hty, Hid, Hlive.
    subst ty' id'. cbn [redisRun length].
    rewrite (checkRedis_mock_count env clk id ty w e) by (done || lia). cbn [snd].
    destruct (IH (setStore
                    (<[limiterKeyOf ty (sanitizeIP id) :=
                         RedisEntry.mk (RedisEntry.value e + 1)
                           (MockRedisClient.expiresAtOrNull e)]> (redisStore w)) w)
                (RedisEntry.mk (RedisEntry.value e + 1)
                   (MockRedisClient.expiresAtOrNull e)))
      as (e' & He' & Hv' & Hx').
    + done.
    + cbn. by rewrite lookup_insert_eq.
    + cbn. lia.
    + eapply Forall_impl; [exact Hall|]. intros c (? & ? & ?).
      by rewrite mock_expired_normalised.
    + exists e'. split; [done|]. cbn in Hv', Hx'. split; [lia|].
      rewrite Hx'. unfold MockRedisClient.expiresAtOrNull. cbn.
      destruct (RedisEntry.expiresAt e) as [x|]; [|done].
      destruct (x =? 0) eqn:E; [done|]. cbn. by rewrite E.
Qed.

(** X8. The Redis counter counts every request of the window, the rejected
    ones included: after [n] requests of an identity, the first of which
    created the key, the value stored under its key is [n], whatever the
    limit; and the key still expires one hour after the first request. *)
Theorem redis_counts_every_request (env : Env) (ty : LimiterType) (id : string)
    (clk : Clock) (rest : list (Clock * LimiterType * string))
    (w : World (gmap string RedisEntry.t)) :
  is_Some (redisClient w) →
  keyGone (t_incr clk) (redisStore w !! limiterKeyOf ty (sanitizeIP id)) →
  t_expire clk + 3600 * 1000 ≠ 0 →
  Forall (λ c, c.1.2 = ty ∧ c.2 = id
               ∧ t_incr c.1.1 ≤ t_expire clk + 3600 * 1000) rest →
  ∃ e, redisStore (redisRun env createMockRedis ((clk, ty, id) :: rest) w)
         !! limiterKeyOf ty (sanitizeIP id) = Some e
       ∧ RedisEntry.value e = Z.of_nat (S (length rest))
       ∧ RedisEntry.expiresAt e = Some (t_expire clk + 3600 * 1000).
Proof.
  intros Hclient Hgone Hnz Hall. cbn [redisRun].
  destruct (checkRedis_mock_first env clk id ty w Hclient Hgone)
    as (s' & -> & Hs' & _). cbn [snd].
  destruct (redisRun_mock_value env ty id rest (setStore s' w)
              (RedisEntry.mk 1 (Some (t_expire clk + 3600 * 1000))))
    as (e & He & Hv & Hx); [done|done|cbn; lia| |].
  - eapply Forall_impl; [exact Hall|]. intros c (? & ? & Hle).
    split; [done|]. split; [done|].
    unfold MockRedisClient.expired. cbn.
    apply andb_false_intro2. by apply Z.ltb_ge.
  - exists e. split; [done|]. cbn in Hv, Hx. split; [lia|].
    unfold MockRedisClient.expiresAtOrNull in Hx. cbn in Hx.
    destruct (RedisEntry.expiresAt e) as [x|].
    + destruct (x =? 0) eqn:E1, (_ + _ =? 0) eqn:E2; try done.
      apply Z.eqb_eq in E2. lia.
    + destruct (_ + _ =? 0) eqn:E2; [|done]. apply Z.eqb_eq in E2. lia.
Qed.

Lemma redis_counts_every_request_witness :
  RedisEntry.value
    <$> (redisStore
           (redisRun ∅ createMockRedis
              (replicate 25 (instant 1000, processing, "1.2.3.4"%string))
              (redisWorld ∅))
         !! limiterKeyOf processing (sanitizeIP "1.2.3.4"))
  = Some 25.
Proof.
  destruct (redis_counts_every_request ∅ processing "1.2.3.4" (instant 1000)
              (replicate 24 (instant 1000, processing, "1.2.3.4"%string))
              (redisWorld ∅)) as (e & He & Hv & _).
  - eexists. reflexivity.
  - exact I.
  - vm_compute. discriminate.
  - each_request ltac:(split; [exact eq_refl|split; [exact eq_refl|vm_compute; discriminate]]).
  - change (replicate 25 (instant 1000, processing, "1.2.3.4"%string))
      with ((instant 1000, processing, "1.2.3.4"%string)
              :: replicate 24 (instant 1000, processing, "1.2.3.4"%string)).
    rewrite He. cbn. by rewrite Hv.
Defined.

(** X9. Every key that the limiter leaves in the mock store carries a time
    of expiry: if all entries of the store have one, they all have one
    after any sequence of Redis checks. *)
Theorem redis_keys_always_expire (env : Env)
    (calls : list (Clock * LimiterType * string))
    (w : World (gmap string RedisEntry.t)) :
  is_Some (redisClient w) →
  allExpire (redisStore w) →
  Forall (λ c, t_expire c.1.1 + 3600 * 1000 ≠ 0) calls →
  allExpire (redisStore (redisRun env createMockRedis calls w)).
Proof.
  revert w. induction calls as [|[[clk ty] id] rest IH];
    intros w Hclient Hall Hnz; [done|].
  apply Forall_cons in Hnz as [Hnz0 Hnz]. cbn in Hnz0. cbn [redisRun].
  rewrite (checkRedis_mock_step env clk id ty w Hclient). cbn [snd].
  apply IH; [done| |done].
  intros k e. cbn.
  destruct (decide (k = limiterKeyOf ty (sanitizeIP id))) as [->|Hne].
  - rewrite lookup_insert_eq. intros [= <-]. unfold mockIncrement.
    destruct (redisStore w !! _) as [e0|] eqn:E0; [|by eexists].
    destruct (MockRedisClient.expired _ _); [by eexists|].
    destruct (_ =? 1); [by eexists|]. cbn.
    destruct (Hall _ _ E0) as (x & Hx & Hx0).
    unfold MockRedisClient.expiresAtOrNull. rewrite Hx.
    rewrite (proj2 (Z.eqb_neq _ _) Hx0). by exists x.
  - rewrite lookup_insert_ne by done. apply Hall.
Qed.

Lemma redis_keys_always_expire_witness :
  allExpire
    (redisStore
       (redisRun ∅ createMockRedis
          [(instant 1000, processing, "1.2.3.4"%string);
           (instant 1001, health, "1.2.3.4"%string);
           (instant 4000000, processing, "1.2.3.4"%string)]
          (redisWorld ∅))).
Proof.
  apply redis_keys_always_expire.
  - eexists. reflexivity.
  - intros k e H. vm_compute in H. discriminate H.
  - repeat (apply Forall_cons_2; [vm_compute; discriminate|]). apply Forall_nil_2.
Defined.

(** X10. A key that is in the store without time of expiry is never given
    one: the limiter sets the expiry only when [incr] answers 1.  An
    identity whose key holds a value at or above the limit and has no
    expiry is therefore rejected at every later time. *)
Theorem key_without_expiry_locks_out (env : Env) (ty : LimiterType) (id : string)
    (reqs : list (Request.t * Clock)) (w : World (gmap string RedisEntry.t))
    (v : Z) :
  redisBackend w →
  redisStore w !! limiterKeyOf ty (sanitizeIP id) = Some (RedisEntry.mk v None) →
  1 ≤ v → maxRequestsFor env ty ≤ v →
  Forall (λ rc, extractClientIP rc.1 = Normal id) reqs →
  Forall (λ res, is429 res = true) (serve env createMockRedis ty reqs w).1
  ∧ ∃ e, redisStore (serve env createMockRedis ty reqs w).2
           !! limiterKeyOf ty (sanitizeIP id) = Some e
         ∧ RedisEntry.expiresAt e = None.
Proof.
  intros Hmode He Hv Hfull Hids. split.
  - apply Forall_lookup. intros i res Hi.
    eapply (serve_redis_window env ty id reqs w) in Hi; [|done|exact He|done|].
    + cbn in Hi. by rewrite bool_decide_eq_false_2 in Hi by lia.
    + eapply Forall_impl; [exact Hids|]. by intros rc ?.
  - clear Hfull. revert w v Hmode He Hv.
    induction reqs as [|[req clk] rest IH]; intros w v Hmode He Hv.
    + by eexists.
    + apply Forall_cons in Hids as [Hid Hids]. cbn in Hid.
      rewrite serve_cons. cbn [snd].
      destruct (createRateLimiter_redis env createMockRedis ty req clk w id Hmode Hid)
        as (result & res0 & _ & -> & _). cbn [snd].
      pose proof Hmode as (_ & _ & Hclient).
      rewrite (checkRedis_mock_count env clk id ty w _ Hclient He)
        by (done || cbn; lia).
      cbn [snd]. apply (IH Hids _ (v + 1)).
      * by apply redisBackend_setStore.
      * cbn. by rewrite lookup_insert_eq.
      * lia.
Qed.

Lemma key_without_expiry_locks_out_witness :
  let stuck : gmap string RedisEntry.t :=
    {[ limiterKeyOf processing (sanitizeIP "1.2.3.4") := RedisEntry.mk 10 None ]} in
  Forall (λ res, is429 res = true)
    (serve ∅ createMockRedis processing
       [(forwardedFor "1.2.3.4", instant 1000);
        (forwardedFor "1.2.3.4", instant 999999999999)]
       (redisWorld stuck)).1.
Proof.
  intros stuck.
  refine (proj1 (key_without_expiry_locks_out ∅ processing "1.2.3.4" _
                   (redisWorld stuck) 10 _ _ _ _ _)).
  - split; [reflexivity|]. split; [reflexivity|]. eexists. reflexivity.
  - vm_compute. reflexivity.
  - vm_compute. discriminate.
  - vm_compute. discriminate.
  - repeat (apply Forall_cons_2; [exact eq_refl|]). apply Forall_nil_2.
Defined.

(** ** Identities that change *)

(** X11. The header is trusted: on the in-memory backend, requests that
    name identities which are pairwise distinct and have no entry are all
    forwarded, however many they are and whatever the limit. *)
Theorem rotating_identities_are_never_limited (env : Env) {R}
    (client : RedisClient R) (ty : LimiterType) (reqs : list (Request.t * Clock)) :
  ∀ (ids : list string) (w : World R),
    localBackend env w →
    Forall2 (λ rc id, extractClientIP rc.1 = Normal id) reqs ids →
    NoDup ids →
    Forall (λ id, inMemoryRateLimitMap w !! limiterKeyOf ty id = None) ids →
    Forall (λ res, isForwarded res = true) (serve env client ty reqs w).1.
Proof.
  induction reqs as [|[req clk] rest IH]; intros ids w Hloc Hids Hnd Hfree.
  - constructor.
  - destruct ids as [|id ids]; [by apply Forall2_cons_nil_inv in Hids|].
    apply Forall2_cons in Hids as [Hid Hids]. cbn in Hid.
    apply NoDup_cons in Hnd as [Hnotin Hnd].
    apply Forall_cons in Hfree as [Hfree0 Hfree].
    rewrite serve_cons. cbn [fst].
    destruct (createRateLimiter_local env client ty req clk w id Hloc Hid)
      as (res & -> & Hsent). cbn [fst snd].
    rewrite (checkInMemory_absent env _ id ty _ Hfree0) in Hsent |- *.
    cbn in Hsent |- *. destruct Hsent as (_ & _ & _ & Hfwd).
    apply Forall_cons. split; [done|].
    apply (IH ids); [by apply localBackend_step|done|done|].
    apply Forall_forall. intros id' Hin. cbn.
    rewrite lookup_insert_ne.
    + by apply (proj1 (Forall_forall _ _) Hfree).
    + intros Heq. apply limiterKeyOf_inj in Heq as [_ ->]. done.
Qed.

Lemma rotating_identities_are_never_limited_witness :
  Forall (λ res, isForwarded res = true)
    (serve ∅ createMockRedis processing
       ((λ xff, (forwardedFor xff, instant 1000))
          <$> ["a"; "b"; "c"; "d"; "e"; "f"; "g"; "h"; "i"; "j"; "k"; "l"]%string)
       (freshWorld ∅)).1.
Proof.
  apply (rotating_identities_are_never_limited ∅ createMockRedis processing _
           ["a"; "b"; "c"; "d"; "e"; "f"; "g"; "h"; "i"; "j"; "k"; "l"]%string).
  - split; [reflexivity|]. intros _. reflexivity.
  - cbn. repeat (apply Forall2_cons_2; [exact eq_refl|]). apply Forall2_nil_2.
  - apply (bool_decide_unpack _). vm_compute. exact I.
  - repeat (apply Forall_cons_2; [exact eq_refl|]). apply Forall_nil_2.
Defined.

(** ** The mock store by itself *)

(** X12. What [set] writes, [get] reads back until the entry expires: a
    non-zero value set without expiry, or read no later than its time of
    expiry, is returned and the store is left as it is; read after that
    time, the answer is null and the key is gone.  A value of 0 is read
    back as null.  [set] touches no other key. *)
Theorem mock_set_then_get (now now' : Z) (key : string) (value : Z)
    (ex : option Z) (s : gmap string RedisEntry.t) :
  let s' := MockRedisClient.set now key value ex s in
  (value ≠ 0 →
   (ex = None ∨ ex = Some 0 ∨ ∃ seconds, ex = Some seconds ∧ now' ≤ now + seconds * 1000) →
   MockRedisClient.get now' key s' = (Normal (Some value), s'))
  ∧ (∀ seconds,
       ex = Some seconds → seconds ≠ 0 → now + seconds * 1000 ≠ 0 →
       now + seconds * 1000 < now' →
       MockRedisClient.get now' key s' = (Normal None, delete key s))
  ∧ (value = 0 → (MockRedisClient.get now' key s').1 = Normal None)
  ∧ (∀ k, k ≠ key → s' !! k = s !! k).
Proof.
  unfold MockRedisClient.set, MockRedisClient.get, MockRedisClient.expired.
  cbn. rewrite lookup_insert_eq. cbn. split; [|split; [|split]].
  - intros Hv [-> | [-> | (seconds & -> & Hle)]]; cbn.
    + by apply Z.eqb_neq in Hv as ->.
    + by apply Z.eqb_neq in Hv as ->.
    + destruct (seconds =? 0); cbn.
      * by apply Z.eqb_neq in Hv as ->.
      * apply Z.ltb_ge in Hle. rewrite Hle, andb_false_r.
        by apply Z.eqb_neq in Hv as ->.
  - intros seconds -> Hs Hnz Hlt.
    apply Z.eqb_neq in Hs as ->. cbn.
    apply Z.eqb_neq in Hnz as ->. apply Z.ltb_lt in Hlt as ->. cbn.
    by rewrite delete_insert_eq.
  - intros ->.
    destruct ex as [seconds|]; cbn; [|done].
    destruct (seconds =? 0); cbn; [done|].
    by destruct (negb _ && _)%bool.
  - intros k Hk. by rewrite lookup_insert_ne.
Qed.

Lemma mock_set_then_get_witness :
  MockRedisClient.get 60000 "k" (MockRedisClient.set 1000 "k" 7 (Some 60) ∅)
  = (Normal (Some 7), MockRedisClient.set 1000 "k" 7 (Some 60) ∅)
  ∧ MockRedisClient.get 61001 "k" (MockRedisClient.set 1000 "k" 7 (Some 60) ∅)
    = (Normal None, delete "k"%string ∅).
Proof.
  destruct (mock_set_then_get 1000 60000 "k" 7 (Some 60) ∅) as (Hlive & _).
  destruct (mock_set_then_get 1000 61001 "k" 7 (Some 60) ∅) as (_ & Hdead & _).
  split.
  - apply Hlive; [discriminate|]. right. right. exists 60. split; [done|].
    vm_compute. discriminate.
  - apply (Hdead 60 eq_refl); [discriminate|vm_compute; discriminate|].
    vm_compute. reflexivity.
Defined.

(** X14. [del] answers 1 exactly when the key was in the store, and after
    [del], as after [flushAll], the key reads as null and the next [incr]
    starts again at 1; [del] touches no other key. *)
Theorem mock_del_resets (now : Z) (key : string) (s : gmap string RedisEntry.t) :
  ((MockRedisClient.del key s).1 = 1 ↔ is_Some (s !! key))
  ∧ ((MockRedisClient.del key s).1 = 0 ↔ s !! key = None)
  ∧ MockRedisClient.get now key (MockRedisClient.del key s).2
    = (Normal None, (MockRedisClient.del key s).2)
  ∧ (MockRedisClient.incr now key (MockRedisClient.del key s).2).1 = Normal 1
  ∧ (MockRedisClient.get now key (MockRedisClient.flushAll s)).1 = Normal None
  ∧ (MockRedisClient.incr now key (MockRedisClient.flushAll s)).1 = Normal 1
  ∧ (∀ k, k ≠ key → (MockRedisClient.del key s).2 !! k = s !! k).
Proof.
  unfold MockRedisClient.del, MockRedisClient.get, MockRedisClient.incr,
    MockRedisClient.flushAll.
  cbn. rewrite lookup_delete_eq, lookup_empty.
  repeat split; try done.
  - case_bool_decide; [done|discriminate].
  - intros H. by rewrite bool_decide_eq_true_2.
  - case_bool_decide as H; [discriminate|]. intros _.
    by apply eq_None_not_Some.
  - intros H. rewrite bool_decide_eq_false_2; [done|]. rewrite H.
    by intros [? ?].
  - intros k Hk. by rewrite lookup_delete_ne.
Qed.

Lemma mock_del_resets_witness :
  (MockRedisClient.del "processing:1-2-3-4"
     {[ "processing:1-2-3-4"%string := RedisEntry.mk 7 (Some 3601000) ]}).1 = 1.
Proof.
  apply (proj1 (mock_del_resets 0 "processing:1-2-3-4"
                  {[ "processing:1-2-3-4"%string := RedisEntry.mk 7 (Some 3601000) ]})).
  vm_compute. eexists. reflexivity.
Defined.

(** ** The API-key check and the routes *)

(** X15. [apiKeyAuth] lets a request through exactly when the server has a
    non-empty API key and the request's [API_KEY] header is that very
    string; without a configured key every request gets 500; in all other
    cases the answer is 401 with one and the same body, whether the header
    is missing, empty, repeated or wrong. *)
Theorem apiKeyAuth_decision (env : Env) (req : Request.t)
    (hs : gmap string HeaderValue) :
  Request.headers req = Some hs →
  (truthy (env !! "API_KEY"%string) = false →
   apiKeyAuth env req
   = Normal (AuthAnswer 500 "Server error: API key not configured."))
  ∧ (∀ key, env !! "API_KEY"%string = Some key → key ≠ EmptyString →
       (apiKeyAuth env req = Normal AuthNext
        ↔ hs !! "api_key"%string = Some (HString key))
       ∧ (hs !! "api_key"%string ≠ Some (HString key) →
          apiKeyAuth env req = Normal (AuthAnswer 401 "Unauthorized"))).
Proof.
  intros Hhs. unfold apiKeyAuth. rewrite Hhs. split.
  - by intros ->.
  - intros key Hkey Hne. rewrite Hkey. cbn.
    destruct key as [|c r]; [done|]. cbn [isEmpty negb].
    destruct (hs !! "api_key"%string) as [[s|l]|]; [|by split..].
    destruct (isEmpty s) eqn:Es; cbn.
    + destruct s; [|done]. by split.
    + destruct (String.eqb_spec s (String c r)) as [->|Hs]; cbn.
      * by split.
      * split; [|done]. split; [done|]. by intros [= ->].
Qed.

Lemma apiKeyAuth_decision_witness :
  let env : Env := {[ "API_KEY"%string := "test-api-key-12345"%string ]} in
  let with_key k :=
    Request.mk (Some {[ "api_key"%string := HString k ]}) None None in
  apiKeyAuth env (with_key "test-api-key-12345") = Normal AuthNext
  ∧ apiKeyAuth env (with_key "test-api-key-1234")
    = Normal (AuthAnswer 401 "Unauthorized")
  ∧ apiKeyAuth ∅ (with_key "test-api-key-12345")
    = Normal (AuthAnswer 500 "Server error: API key not configured.").
Proof.
  intros env with_key. split; [|split].
  - destruct (apiKeyAuth_decision env (with_key "test-api-key-12345"%string)
                _ eq_refl) as [_ H].
    destruct (H "test-api-key-12345"%string eq_refl) as [[_ Hok] _];
      [discriminate|].
    apply Hok. reflexivity.
  - destruct (apiKeyAuth_decision env (with_key "test-api-key-1234"%string)
                _ eq_refl) as [_ H].
    destruct (H "test-api-key-12345"%string eq_refl) as [_ Hbad];
      [discriminate|].
    apply Hbad. vm_compute. discriminate.
  - destruct (apiKeyAuth_decision ∅ (with_key "test-api-key-12345"%string)
                _ eq_refl) as [H _].
    apply H. reflexivity.
Defined.

(** ** The routes of the server *)

Lemma routeChains_cons (env : Env) {R} (client : RedisClient R)
    route req clk rest (w : World R) :
  routeChains env client ((route, req, clk) :: rest) w
  = ((routeChain env client route req clk w).1
       :: (routeChains env client rest (routeChain env client route req clk w).2).1,
     (routeChains env client rest (routeChain env client route req clk w).2).2).
Proof.
  cbn. destruct (routeChain _ _ _ _ _ _) as [p w']. cbn.
  by destruct (routeChains _ _ _ _).
Qed.

Lemma routeChain_unfold (env : Env) {R} (client : RedisClient R)
    route req clk (w : World R) :
  routeChain env client route req clk w
  = (passageAfter env route req
       (createRateLimiter env client (routeLimiter route) req clk w).1.2,
     (createRateLimiter env client (routeLimiter route) req clk w).2).
Proof.
  unfold routeChain. by destruct (createRateLimiter _ _ _ _ _ _) as [[? ?] ?].
Qed.

(** Traffic on routes that mount the same limiter goes through the
    middleware of that limiter, request after request. *)
Lemma routeChains_serve (env : Env) {R} (client : RedisClient R) ty calls :
  ∀ w : World R,
    Forall (λ c, routeLimiter c.1.1 = ty) calls →
    (routeChains env client calls w).1
    = zip_with (λ c res, passageAfter env c.1.1 c.1.2 res) calls
        (serve env client ty ((λ c, (c.1.2, c.2)) <$> calls) w).1
    ∧ (routeChains env client calls w).2
      = (serve env client ty ((λ c, (c.1.2, c.2)) <$> calls) w).2.
Proof.
  induction calls as [|[[route req] clk] rest IH]; intros w Hall; [done|].
  apply Forall_cons in Hall as [Hty Hall]. cbn in Hty.
  rewrite routeChains_cons, routeChain_unfold. cbn [fmap list_fmap fst snd].
  rewrite serve_cons. cbn [fst snd zip_with]. rewrite Hty.
  destruct (IH (createRateLimiter env client ty req clk w).2 Hall) as [-> ->].
  done.
Qed.

(** The chain of a route after the requests before it. *)
Lemma routeChains_lookup (env : Env) {R} (client : RedisClient R) calls :
  ∀ (w : World R) (k : nat) c,
    calls !! k = Some c →
    (routeChains env client calls w).1 !! k
    = Some (routeChain env client c.1.1 c.1.2 c.2
              (routeChains env client (take k calls) w).2).1.
Proof.
  induction calls as [|[[route req] clk] rest IH]; intros w k c Hc; [done|].
  rewrite routeChains_cons. destruct k as [|k]; cbn in Hc.
  - by simplify_eq.
  - cbn [fst lookup list_lookup take]. rewrite routeChains_cons. cbn [snd].
    by apply IH.
Qed.

Lemma appRuns_cons (env : Env) {R} (client : RedisClient R) a clk rest
    (w : World R) :
  appRuns env client ((a, clk) :: rest) w
  = ((app env client a clk w).1
       :: (appRuns env client rest (app env client a clk w).2).1,
     (appRuns env client rest (app env client a clk w).2).2).
Proof.
  cbn. destruct (app _ _ _ _ _) as [p w']. cbn.
  by destruct (appRuns _ _ _ _).
Qed.

(** A request that [cors] or [express.json] turns away ends in an error
    and leaves the limiter as it was; the others enter the chain of their
    route. *)
Lemma app_cases (env : Env) {R} (client : RedisClient R) a clk (w : World R) :
  if reachesRoutes env a
  then app env client a clk w
       = routeChain env client (Incoming.route a) (Incoming.req a) clk w
  else ∃ e, app env client a clk w = (Throw e, w).
Proof.
  unfold reachesRoutes, app.
  destruct (corsMiddleware env _) as [?|e]; cbn; [|by exists e].
  destruct (Incoming.json a) as [?|e]; cbn; [done|by exists e].
Qed.

Lemma reached_cons env a clk rest :
  reached env ((a, clk) :: rest)
  = if reachesRoutes env a
    then (Incoming.route a, Incoming.req a, clk) :: reached env rest
    else reached env rest.
Proof.
  unfold reached. cbn [List.filter fst]. by destruct (reachesRoutes env a).
Qed.

Lemma reached_app env l1 l2 :
  reached env (l1 ++ l2) = reached env l1 ++ reached env l2.
Proof.
  unfold reached. by rewrite List.filter_app, fmap_app.
Qed.

(** The limiter has seen the requests that reached the routes, and no
    other. *)
Lemma appRuns_world (env : Env) {R} (client : RedisClient R) calls :
  ∀ w : World R,
    (appRuns env client calls w).2
    = (routeChains env client (reached env calls) w).2.
Proof.
  induction calls as [|[a clk] rest IH]; intros w; [done|].
  rewrite appRuns_cons, reached_cons. cbn [snd].
  pose proof (app_cases env client a clk w) as Happ.
  destruct (reachesRoutes env a).
  - rewrite routeChains_cons. cbn [snd]. by rewrite Happ, IH.
  - destruct Happ as [e ->]. cbn [snd]. apply IH.
Qed.

Lemma appRuns_lookup (env : Env) {R} (client : RedisClient R) calls :
  ∀ (w : World R) (i : nat) c,
    calls !! i = Some c →
    (appRuns env client calls w).1 !! i
    = Some (app env client c.1 c.2 (appRuns env client (take i calls) w).2).1.
Proof.
  induction calls as [|[a clk] rest IH]; intros w i c Hc; [done|].
  rewrite appRuns_cons. destruct i as [|i]; cbn in Hc.
  - by simplify_eq.
  - cbn [fst lookup list_lookup take]. rewrite appRuns_cons. cbn [snd].
    by apply IH.
Qed.

(** The budget of the processing routes among the requests that reached
    them. *)
Lemma routeChains_budget (env : Env) {R} (client : RedisClient R) (id : string)
    (first : Route * Request.t * Clock) (rest : list (Route * Request.t * Clock))
    (w : World R) :
  localBackend env w →
  1 ≤ maxRequestsFor env processing →
  windowOver (t_start first.2)
    (inMemoryRateLimitMap w !! limiterKeyOf processing id) →
  Forall (λ c, c.1.1 ≠ apiHealth ∧ extractClientIP c.1.2 = Normal id
               ∧ t_start c.2 ≤ t_start first.2 + RATE_LIMIT_WINDOW)
    (first :: rest) →
  ∀ (k : nat) c p,
    (first :: rest) !! k = Some c →
    (routeChains env client (first :: rest) w).1 !! k = Some p →
    ∃ res,
      if bool_decide (Z.of_nat k < maxRequestsFor env processing) then
        isForwarded res = true
        ∧ p = match c.1.1 with
              | apiV1Process =>
                  match apiKeyAuth env c.1.2 with
                  | Throw e => Throw e
                  | Normal AuthNext => Normal (HandlerReached res)
                  | Normal (AuthAnswer status error) =>
                      Normal (StoppedByAuth res status error)
                  end
              | _ => Normal (HandlerReached res)
              end
      else is429 res = true ∧ p = Normal (StoppedByLimiter res).
Proof.
  destruct first as [[route req] clk]. cbn [snd].
  intros Hloc Hlimit Hover Hall i c p Hc Hp.
  destruct (routeChains_serve env client processing ((route, req, clk) :: rest) w)
    as [Hpass _].
  { eapply Forall_impl; [exact Hall|]. intros [[r ?] ?] (Hr & _). cbn in *.
    by destruct r. }
  rewrite Hpass in Hp. apply lookup_zip_with_Some in Hp as (c' & res & -> & Hc' & Hres).
  rewrite Hc in Hc'. injection Hc' as <-.
  exists res. cbn [fmap list_fmap fst snd] in Hres.
  eapply (serve_local_opening env client processing id req clk) in Hres;
    [|exact Hloc|exact Hover| |].
  - assert (if bool_decide (Z.of_nat i < maxRequestsFor env processing)
            then isForwarded res = true else is429 res = true) as Hq.
    { destruct i as [|i]; cbn in Hres.
      - by rewrite bool_decide_eq_true_2 by lia.
      - by rewrite bool_decide_eq_true_2 in Hres by lia. }
    destruct (bool_decide (Z.of_nat i < _)).
    + split; [done|]. unfold passageAfter.
      apply bool_decide_eq_true in Hq as (-> & _).
      apply list_elem_of_lookup_2 in Hc.
      apply (proj1 (Forall_forall _ _) Hall) in Hc as (Hne & _).
      by destruct (c.1.1).
    + split; [done|]. unfold passageAfter.
      by apply bool_decide_eq_true in Hq as (_ & ->).
  - apply Forall_cons in Hall as [(_ & Hid & _) _]. exact Hid.
  - apply Forall_cons in Hall as [_ Hall]. apply Forall_fmap.
    eapply Forall_impl; [exact Hall|]. by intros ? (_ & ? & ?).
Qed.

(** X16. On the in-memory backend the UI route and the authenticated API
    route draw on one budget, and the limiter comes before the API-key
    check.  Of the requests of an identity that get past [cors] and
    [express.json] to these two routes within a window, in any mix and
    with whatever API key, the first [limit] pass the limiter (and then
    meet the key check on the authenticated route), and every further one
    is stopped by the limiter with a 429, a valid key included.  A request
    that [cors] or [express.json] turns away ends in an error and uses
    none of the budget. *)
Theorem processing_routes_share_one_budget (env : Env) {R}
    (client : RedisClient R) (id : string)
    (calls : list (Incoming.t * Clock))
    (first : Route * Request.t * Clock) (rest : list (Route * Request.t * Clock))
    (w : World R) :
  localBackend env w →
  1 ≤ maxRequestsFor env processing →
  reached env calls = first :: rest →
  windowOver (t_start first.2)
    (inMemoryRateLimitMap w !! limiterKeyOf processing id) →
  Forall (λ c, c.1.1 ≠ apiHealth ∧ extractClientIP c.1.2 = Normal id
               ∧ t_start c.2 ≤ t_start first.2 + RATE_LIMIT_WINDOW)
    (first :: rest) →
  ∀ (i : nat) c p,
    calls !! i = Some c →
    (appRuns env client calls w).1 !! i = Some p →
    if reachesRoutes env c.1 then
      ∃ res,
        if bool_decide (Z.of_nat (length (reached env (take i calls)))
                        < maxRequestsFor env processing)
        then
          isForwarded res = true
          ∧ p = match Incoming.route c.1 with
                | apiV1Process =>
                    match apiKeyAuth env (Incoming.req c.1) with
                    | Throw e => Throw e
                    | Normal AuthNext => Normal (HandlerReached res)
                    | Normal (AuthAnswer status error) =>
                        Normal (StoppedByAuth res status error)
                    end
                | _ => Normal (HandlerReached res)
                end
        else is429 res = true ∧ p = Normal (StoppedByLimiter res)
    else ∃ e, p = Throw e.
Proof.
  intros Hloc Hlimit Hreached Hover Hall i [a clk] p Hc Hp.
  rewrite (appRuns_lookup env client calls w i _ Hc) in Hp.
  injection Hp as <-. cbn [fst snd].
  pose proof (app_cases env client a clk (appRuns env client (take i calls) w).2)
    as Happ.
  destruct (reachesRoutes env a) eqn:Hreach; [|by destruct Happ as [e ->]; exists e].
  rewrite Happ, appRuns_world.
  set (k := length (reached env (take i calls))).
  assert (reached env calls
          = reached env (take i calls)
            ++ (Incoming.route a, Incoming.req a, clk)
            :: reached env (drop (S i) calls)) as Hsplit.
  { rewrite <-(take_drop_middle calls i (a, clk) Hc) at 1.
    by rewrite reached_app, reached_cons, Hreach. }
  assert ((first :: rest) !! k = Some (Incoming.route a, Incoming.req a, clk))
    as Hk.
  { rewrite <-Hreached, Hsplit. by apply list_lookup_middle. }
  assert (take k (first :: rest) = reached env (take i calls)) as Htake.
  { rewrite <-Hreached, Hsplit. unfold k. by rewrite take_app_length. }
  pose proof (routeChains_lookup env client (first :: rest) w k _ Hk) as Hp.
  rewrite Htake in Hp. cbn [fst snd] in Hp.
  exact (routeChains_budget env client id first rest w Hloc Hlimit Hover Hall
           k _ _ Hk Hp).
Qed.

Lemma processing_routes_share_one_budget_witness :
  let keyed :=
    Request.mk
      (Some {[ "x-forwarded-for"%string := HString "1.2.3.4";
               "api_key"%string := HString "test-api-key-12345" ]}) None None in
  let foreign :=
    Request.mk
      (Some {[ "x-forwarded-for"%string := HString "1.2.3.4";
               "origin"%string := HString "https://evil.example" ]}) None None in
  let env : Env := {[ "API_KEY"%string := "test-api-key-12345"%string ]} in
  let calls :=
    replicate 10 (Incoming.mk apiUiProcess (forwardedFor "1.2.3.4") (Normal ()),
                  instant 1000)
    ++ [(Incoming.mk apiUiProcess foreign (Normal ()), instant 1500);
        (Incoming.mk apiV1Process keyed (Normal ()), instant 2000)] in
  apiKeyAuth env keyed = Normal AuthNext
  ∧ (appRuns env createMockRedis calls (freshWorld ∅)).1 !! 10%nat
    = Some (Throw "Not allowed by CORS")
  ∧ ∃ res,
      (appRuns env createMockRedis calls (freshWorld ∅)).1 !! 11%nat
      = Some (Normal (StoppedByLimiter res))
      ∧ is429 res = true.
Proof.
  intros keyed foreign env calls.
  split; [vm_compute; reflexivity|]. split; [vm_compute; reflexivity|].
  assert (∃ p, (appRuns env createMockRedis calls (freshWorld ∅)).1 !! 11%nat
               = Some p) as [p Hp].
  { vm_compute. eexists. reflexivity. }
  pose proof (processing_routes_share_one_budget env createMockRedis "1.2.3.4"
                calls (apiUiProcess, forwardedFor "1.2.3.4", instant 1000)
                (replicate 9 (apiUiProcess, forwardedFor "1.2.3.4", instant 1000)
                 ++ [(apiV1Process, keyed, instant 2000)])
                (freshWorld ∅)) as H.
  specialize (H (conj eq_refl (λ _, eq_refl))).
  specialize (H ltac:(vm_compute; discriminate)).
  specialize (H ltac:(vm_compute; reflexivity)).
  specialize (H I).
  assert (Forall
            (λ c : Route * Request.t * Clock,
               c.1.1 ≠ apiHealth ∧ extractClientIP c.1.2 = Normal "1.2.3.4"%string
               ∧ t_start c.2
                 ≤ t_start (apiUiProcess, forwardedFor "1.2.3.4", instant 1000).2
                   + RATE_LIMIT_WINDOW)
            ((apiUiProcess, forwardedFor "1.2.3.4", instant 1000)
             :: replicate 9 (apiUiProcess, forwardedFor "1.2.3.4", instant 1000)
             ++ [(apiV1Process, keyed, instant 2000)])) as Hall.
  { cbn [replicate app].
    repeat (apply Forall_cons_2;
            [split; [discriminate|split; [exact eq_refl|vm_compute; discriminate]]|]).
    apply Forall_nil_2. }
  specialize (H Hall 11%nat (Incoming.mk apiV1Process keyed (Normal ()), instant 2000)
                p eq_refl Hp).
  assert (reachesRoutes env (Incoming.mk apiV1Process keyed (Normal ())) = true)
    as Hreach by (vm_compute; reflexivity).
  cbn [fst] in H. rewrite Hreach in H. destruct H as [res Hres].
  rewrite bool_decide_eq_false_2 in Hres by (vm_compute; discriminate).
  destruct Hres as [H429 ->]. exists res. split; [exact Hp|exact H429].
Defined.

(** On the in-memory backend a request to the middleware of one namespace
    leaves the process on that backend and touches no key of the other
    namespace, whether or not an identity could be read from it. *)
Lemma createRateLimiter_local_frame (env : Env) {R} (client : RedisClient R)
    ty req clk (w : World R) :
  localBackend env w →
  localBackend env (createRateLimiter env client ty req clk w).2
  ∧ ∀ k, (∀ id, k ≠ limiterKeyOf ty id) →
         inMemoryRateLimitMap (createRateLimiter env client ty req clk w).2 !! k
         = inMemoryRateLimitMap w !! k.
Proof.
  intros Hloc.
  destruct (extractClientIP req) as [id|msg] eqn:Hid.
  - destruct (createRateLimiter_local env client ty req clk w id Hloc Hid)
      as (res & -> & _). cbn [snd]. split; [by apply localBackend_step|].
    intros k Hk. cbn. by apply checkInMemory_frame.
  - pose proof Hloc as [Hflag Hinit].
    assert ((if rateLimiterInitialized w then w else initializeRedis env client w)
            = setInitialized true w) as Hw.
    { unfold initializeRedis.
      destruct (rateLimiterInitialized w) eqn:E; [by rewrite setInitialized_id|].
      by rewrite Hinit. }
    unfold createRateLimiter, limiterTryCatch, limiterBody. rewrite Hw, Hid.
    cbn. split; [by split|done].
Qed.

Lemma routeChains_local_frame (env : Env) {R} (client : RedisClient R) calls :
  ∀ (w : World R) k,
    localBackend env w →
    Forall (λ c, ∀ id, k ≠ limiterKeyOf (routeLimiter c.1.1) id) calls →
    localBackend env (routeChains env client calls w).2
    ∧ inMemoryRateLimitMap (routeChains env client calls w).2 !! k
      = inMemoryRateLimitMap w !! k.
Proof.
  induction calls as [|[[route req] clk] rest IH]; intros w k Hloc Hall; [done|].
  apply Forall_cons in Hall as [Hk Hall]. cbn in Hk.
  rewrite routeChains_cons, routeChain_unfold. cbn [snd].
  destruct (createRateLimiter_local_frame env client (routeLimiter route) req clk w Hloc)
    as [Hloc' Hframe].
  destruct (IH _ k Hloc' Hall) as [? ->]. split; [done|]. by apply Hframe.
Qed.

(** X17. On the in-memory backend the health route has a budget of its own.
    After any traffic in which only the processing routes were reached, a
    first health check of an identity that gets past [cors] and
    [express.json] reaches its handler with [limit - 1] remaining out of
    the health limit; and in the same way traffic that reached only the
    health route uses none of the processing budget.  Requests that [cors]
    or [express.json] turned away, on whatever route, do not matter. *)
Theorem health_route_has_its_own_budget (env : Env) {R} (client : RedisClient R)
    (calls : list (Incoming.t * Clock)) (id : string) (a : Incoming.t)
    (clk : Clock) (w : World R) :
  localBackend env w →
  reachesRoutes env a = true →
  extractClientIP (Incoming.req a) = Normal id →
  (Incoming.route a = apiHealth →
   Forall (λ c, c.1.1 ≠ apiHealth) (reached env calls) →
   inMemoryRateLimitMap w !! limiterKeyOf health id = None →
   ∃ res,
     (app env client a clk (appRuns env client calls w).2).1
     = Normal (HandlerReached res)
     ∧ Res.headers res !! "X-RateLimit-Limit"%string
       = Some (HEALTH_CHECK_RATE_LIMIT_MAX_REQUESTS env)
     ∧ Res.headers res !! "X-RateLimit-Remaining"%string
       = Some (Z.max 0 (HEALTH_CHECK_RATE_LIMIT_MAX_REQUESTS env - 1)))
  ∧ (Incoming.route a = apiUiProcess →
     Forall (λ c, c.1.1 = apiHealth) (reached env calls) →
     inMemoryRateLimitMap w !! limiterKeyOf processing id = None →
     ∃ res,
       (app env client a clk (appRuns env client calls w).2).1
       = Normal (HandlerReached res)
       ∧ Res.headers res !! "X-RateLimit-Limit"%string
         = Some (PROCESSING_RATE_LIMIT_MAX_REQUESTS env)
       ∧ Res.headers res !! "X-RateLimit-Remaining"%string
         = Some (Z.max 0 (PROCESSING_RATE_LIMIT_MAX_REQUESTS env - 1))).
Proof.
  intros Hloc Hreach Hid.
  pose proof (app_cases env client a clk (appRuns env client calls w).2) as Happ.
  rewrite Hreach in Happ. rewrite Happ, appRuns_world. clear Happ.
  set (req := Incoming.req a) in *.
  assert (∀ route,
            route ≠ apiV1Process →
            Forall (λ c, ∀ id', limiterKeyOf (routeLimiter route) id
                                ≠ limiterKeyOf (routeLimiter c.1.1) id')
              (reached env calls) →
            inMemoryRateLimitMap w !! limiterKeyOf (routeLimiter route) id = None →
            ∃ res,
              (routeChain env client route req clk
                 (routeChains env client (reached env calls) w).2).1
              = Normal (HandlerReached res)
              ∧ Res.headers res !! "X-RateLimit-Limit"%string
                = Some (maxRequestsFor env (routeLimiter route))
              ∧ Res.headers res !! "X-RateLimit-Remaining"%string
                = Some (Z.max 0 (maxRequestsFor env (routeLimiter route) - 1)))
    as Hgen.
  { intros route Hroute Hkeys Hnone.
    destruct (routeChains_local_frame env client (reached env calls) w _ Hloc Hkeys)
      as [Hloc' Hmap].
    rewrite routeChain_unfold. cbn [fst].
    destruct (createRateLimiter_local env client (routeLimiter route) req clk _ id
                Hloc' Hid) as (res & -> & Hsent).
    cbn [fst snd]. rewrite Hnone in Hmap.
    rewrite (checkInMemory_absent env _ id _ _ Hmap) in Hsent. cbn in Hsent.
    destruct Hsent as (Hl & Hr & _ & Hfwd). exists res. split; [|done].
    unfold passageAfter. apply bool_decide_eq_true in Hfwd as (-> & _).
    by destruct route. }
  split.
  - intros -> Hroutes Hnone. apply (Hgen apiHealth); [done| |done].
    eapply Forall_impl; [exact Hroutes|]. intros [[r ?] ?] Hr id' Heq. cbn in *.
    apply limiterKeyOf_inj in Heq as [Heq _]. by destruct r.
  - intros -> Hroutes Hnone. apply (Hgen apiUiProcess); [done| |done].
    eapply Forall_impl; [exact Hroutes|]. intros [[r ?] ?] Hr id' Heq. cbn in *.
    apply limiterKeyOf_inj in Heq as [Heq _]. by subst r.
Qed.

Lemma health_route_has_its_own_budget_witness :
  let calls :=
    replicate 12 (Incoming.mk apiUiProcess (forwardedFor "1.2.3.4") (Normal ()),
                  instant 1000)
    ++ [(Incoming.mk apiHealth (forwardedFor "1.2.3.4") (Throw "Unexpected token"),
         instant 1500)] in
  ∃ res,
    (app ∅ createMockRedis
       (Incoming.mk apiHealth (forwardedFor "1.2.3.4") (Normal ())) (instant 2000)
       (appRuns ∅ createMockRedis calls (freshWorld ∅)).2).1
    = Normal (HandlerReached res)
    ∧ Res.headers res !! "X-RateLimit-Remaining"%string = Some 99.
Proof.
  intros calls.
  pose proof (health_route_has_its_own_budget ∅ createMockRedis calls "1.2.3.4"
                (Incoming.mk apiHealth (forwardedFor "1.2.3.4") (Normal ()))
                (instant 2000) (freshWorld ∅)
                (conj eq_refl (λ _, eq_refl)) eq_refl eq_refl) as [Hhealth _].
  destruct (Hhealth eq_refl) as (res & Hp & _ & Hrem).
  - assert (reached ∅ calls
            = replicate 12 (apiUiProcess, forwardedFor "1.2.3.4", instant 1000))
      as -> by (vm_compute; reflexivity).
    each_request ltac:(discriminate).
  - reflexivity.
  - exists res. split; [exact Hp|]. rewrite Hrem. vm_compute. reflexivity.
Defined.

(** ** Slicing *)

Lemma sliceLoop_tiles (width height target : Z) :
  1 ≤ target →
  ∀ (fuel : nat) (y id : Z),
    0 ≤ y ≤ height → (Z.to_nat (height - y) < fuel)%nat →
    ∃ chunks,
      sliceLoop fuel width height target y id = Some chunks
      ∧ tilesFrom height target y id chunks
      ∧ Forall (λ c, Chunk.crop c = (0, Chunk.yOffset c, width, Chunk.height c))
          chunks.
Proof.
  intros Htarget. induction fuel as [|fuel IH]; intros y id Hy Hfuel; [lia|].
  cbn [sliceLoop]. destruct (y <? height) eqn:E.
  - apply Z.ltb_lt in E.
    destruct (IH (y + Z.min target (height - y)) (id + 1)) as (chunks & -> & Ht & Hc);
      [lia|lia|].
    eexists. split; [done|]. cbn. split; [|by constructor].
    repeat split; [lia|done].
  - apply Z.ltb_ge in E. exists []. split; [done|]. cbn. split; [lia|constructor].
Qed.

Lemma tilesFrom_total height target chunks :
  ∀ y id, tilesFrom height target y id chunks → totalHeight chunks = height - y.
Proof.
  induction chunks as [|c rest IH]; intros y id H; cbn in H.
  - subst. cbn. lia.
  - destruct H as (_ & _ & _ & _ & Hrest).
    change (totalHeight (c :: rest)) with (Chunk.height c + totalHeight rest).
    rewrite (IH _ _ Hrest). lia.
Qed.

Lemma tilesFrom_lookup height target chunks :
  ∀ y id (i : nat) c,
    tilesFrom height target y id chunks → chunks !! i = Some c →
    Chunk.id c = id + Z.of_nat i
    ∧ Chunk.yOffset c = y + Z.of_nat i * target
    ∧ Chunk.height c = Z.min target (height - Chunk.yOffset c)
    ∧ 1 ≤ Chunk.height c
    ∧ (is_Some (chunks !! S i) → Chunk.height c = target).
Proof.
  induction chunks as [|c0 rest IH]; intros y id i c H Hi; [done|].
  cbn in H. destruct H as (Hid & Hy & Hh & Hpos & Hrest).
  assert (is_Some (rest !! 0%nat) → Chunk.height c0 = target) as Hnext.
  { intros [c1 Hc1]. destruct rest as [|c1' rest']; [done|].
    cbn in Hrest. destruct Hrest as (_ & _ & Hh1 & Hpos1 & _). lia. }
  destruct i as [|i]; cbn in Hi.
  - simplify_eq. repeat split; try lia. exact Hnext.
  - assert (Chunk.height c0 = target) as Ht.
    { apply Hnext. destruct rest; [done|by eexists]. }
    destruct (IH _ _ i c Hrest Hi) as (? & ? & ? & ? & ?).
    repeat split; try lia. done.
Qed.

Lemma tilesFrom_last height target chunks c :
  ∀ y id, tilesFrom height target y id chunks → last chunks = Some c →
          Chunk.yOffset c + Chunk.height c = height.
Proof.
  induction chunks as [|c0 rest IH]; intros y id Htiles Hlast; [done|].
  cbn in Htiles. destruct Htiles as (_ & Hy0 & Hh0 & Hpos0 & Hrest).
  destruct rest as [|c1 rest'].
  - cbn in Hlast, Hrest. simplify_eq. lia.
  - apply (IH _ _ Hrest). exact Hlast.
Qed.

Lemma tilesFrom_length height target chunks :
  1 ≤ target →
  ∀ y id, y ≤ height → tilesFrom height target y id chunks →
          Z.of_nat (length chunks) = ceilDiv (height - y) target.
Proof.
  intros Htarget. unfold ceilDiv.
  induction chunks as [|c rest IH]; intros y id Hy H; cbn in H.
  - subst. cbn. replace (- (height - height)) with 0 by lia.
    by rewrite Z.div_0_l by lia.
  - destruct H as (_ & _ & Hh & Hpos & Hrest).
    assert (y + Chunk.height c ≤ height) as Hy' by lia.
    cbn [length]. rewrite Nat2Z.inj_succ, (IH _ _ Hy' Hrest).
    destruct (decide (target ≤ height - y)) as [Hbig|Hsmall].
    + replace (Chunk.height c) with target by lia.
      replace (- (height - (y + target))) with (- (height - y) + 1 * target) by lia.
      rewrite Z.div_add by lia. lia.
    + replace (Chunk.height c) with (height - y) by lia.
      replace (- (height - (y + (height - y)))) with 0 by lia.
      rewrite Z.div_0_l by lia.
      assert (- (height - y) / target = -1); [|lia].
      symmetry. apply (Z.div_unique _ _ _ (target - (height - y))); lia.
Qed.

(** X18. For a chunk height of at least 1 the loop of [splitImageApi] ends,
    after at most [height] rounds, and its chunks tile the image: chunk [i]
    has id [i], starts at row [i * chunkHeight], has at least one row and
    at most [chunkHeight], is cropped inside the image over its full width,
    and the heights add up to the height of the image. *)
Theorem slices_tile_the_image (width height target : Z) (fuel : nat) :
  1 ≤ target → 0 ≤ height → (Z.to_nat height < fuel)%nat →
  ∃ chunks,
    sliceLoop fuel width height target 0 0 = Some chunks
    ∧ totalHeight chunks = height
    ∧ ∀ (i : nat) c, chunks !! i = Some c →
        Chunk.id c = Z.of_nat i
        ∧ Chunk.yOffset c = Z.of_nat i * target
        ∧ 1 ≤ Chunk.height c ≤ target
        ∧ Chunk.yOffset c + Chunk.height c ≤ height
        ∧ Chunk.crop c = (0, Chunk.yOffset c, width, Chunk.height c).
Proof.
  intros Htarget Hheight Hfuel.
  destruct (sliceLoop_tiles width height target Htarget fuel 0 0)
    as (chunks & Hloop & Htiles & Hcrop); [lia|by rewrite Z.sub_0_r|].
  exists chunks. split; [done|]. split.
  - rewrite (tilesFrom_total _ _ _ _ _ Htiles). lia.
  - intros i c Hi.
    destruct (tilesFrom_lookup _ _ _ _ _ i c Htiles Hi) as (? & ? & ? & ? & _).
    repeat split; try lia.
    by apply (proj1 (Forall_lookup _ _) Hcrop i c).
Qed.

Lemma slices_tile_the_image_witness :
  (λ c, (Chunk.id c, Chunk.yOffset c, Chunk.height c))
    <$> default [] (sliceLoop 2501 800 2500 1000 0 0)
  = [(0, 0, 1000); (1, 1000, 1000); (2, 2000, 500)]
  ∧ ∃ chunks, sliceLoop 2501 800 2500 1000 0 0 = Some chunks
              ∧ totalHeight chunks = 2500.
Proof.
  split; [vm_compute; reflexivity|].
  destruct (slices_tile_the_image 800 2500 1000 2501) as (chunks & H & Ht & _);
    [lia|lia|vm_compute; lia|].
  by exists chunks.
Defined.

(** X19. The number of chunks is the height of the image divided by the
    chunk height, rounded up; all chunks but the last have the full chunk
    height, and the last one has what is left; an image of height 0 gives
    no chunk. *)
Theorem chunk_count (width height target : Z) (fuel : nat) :
  1 ≤ target → 0 ≤ height → (Z.to_nat height < fuel)%nat →
  ∃ chunks,
    sliceLoop fuel width height target 0 0 = Some chunks
    ∧ Z.of_nat (length chunks) = ceilDiv height target
    ∧ (∀ (i : nat) c, chunks !! i = Some c → is_Some (chunks !! S i) →
         Chunk.height c = target)
    ∧ (∀ c, last chunks = Some c →
         Chunk.height c = height - (Z.of_nat (length chunks) - 1) * target)
    ∧ (height = 0 → chunks = []).
Proof.
  intros Htarget Hheight Hfuel.
  destruct (sliceLoop_tiles width height target Htarget fuel 0 0)
    as (chunks & Hloop & Htiles & _); [lia|by rewrite Z.sub_0_r|].
  exists chunks. split; [done|]. split; [|split; [|split]].
  - rewrite (tilesFrom_length height target chunks Htarget 0 0) by done.
    by rewrite Z.sub_0_r.
  - intros i c Hi Hnext.
    by destruct (tilesFrom_lookup _ _ _ _ _ i c Htiles Hi) as (_ & _ & _ & _ & H);
      apply H.
  - intros c Hlast.
    pose proof (tilesFrom_last _ _ _ c _ _ Htiles Hlast) as Hend.
    rewrite last_lookup in Hlast.
    destruct (tilesFrom_lookup _ _ _ _ _ _ c Htiles Hlast) as (_ & Hy & _).
    assert (length chunks ≠ 0%nat) as Hne by (by destruct chunks).
    assert (Z.of_nat (pred (length chunks)) = Z.of_nat (length chunks) - 1)
      as Hpred by lia.
    rewrite Hpred in Hy. lia.
  - intros ->. destruct chunks as [|c rest]; [done|].
    cbn in Htiles. lia.
Qed.

Lemma chunk_count_witness :
  ∃ chunks, sliceLoop 2501 800 2500 1000 0 0 = Some chunks
            ∧ Z.of_nat (length chunks) = 3.
Proof.
  destruct (chunk_count 800 2500 1000 2501) as (chunks & H & Hn & _);
    [lia|lia|vm_compute; lia|].
  exists chunks. split; [exact H|]. rewrite Hn. vm_compute. reflexivity.
Defined.
